(** * Plottable: HorizontalLegend layout, DataSource and XDragBoxLayer

    A shallow embedding of
    - [src/components/horizontalLegend.ts] (entry sizing, greedy row packing
      and the space request of the horizontal legend),
    - [src/dataSource.ts] (the observable data container), and
    - the behaviour of [Plottable.Components.XDragBoxLayer] that the test
      file of the drag box layer exercises.

    The numbers of the legend are JavaScript numbers, that is IEEE 754
    binary64 values: [spec_float] with the operations of the standard
    library's specification of floating-point arithmetic at precision 53 and
    maximal exponent 1024, each operation rounded to nearest, ties to
    even. *)

From Stdlib Require Import QArith Lqa Lia ZArith Floats.SpecFloat.
From stdpp Require Import gmap strings list fin_maps.

(** ** JavaScript numbers *)

Module JS.

Definition num : Type := spec_float.

Definition prec : Z := 53.
Definition emax : Z := 1024.

Definition NaN : num := S754_nan.

(** The double of a whole number (exact below 2^53 in magnitude). *)
Definition of_Z (z : Z) : num := binary_normalize prec emax z 0 false.

Definition of_nat (n : nat) : num := of_Z (Z.of_nat n).

Definition zero : num := S754_zero false.

(** The double nearest to the decimal fraction [n / d]. *)
Definition decimal (n d : Z) : num := SFdiv prec emax (of_Z n) (of_Z d).

(** [ToNumber] of a property read: a missing key reads as [undefined],
    which converts to NaN. *)
Definition of_lookup (o : option num) : num :=
  match o with
  | Some x => x
  | None => NaN
  end.

Definition add : num → num → num := SFadd prec emax.
Definition sub : num → num → num := SFsub prec emax.
Definition mul : num → num → num := SFmul prec emax.
Definition div : num → num → num := SFdiv prec emax.

(** [a < b], [a > b], [a <= b] and [a >= b]; every comparison with NaN is
    false. *)
Definition lt (a b : num) : bool := SFltb a b.
Definition gt (a b : num) : bool := SFltb b a.
Definition le (a b : num) : bool := SFleb a b.
Definition ge (a b : num) : bool := SFleb b a.

(** [a !== b] on numbers: NaN differs from every number and from itself, and
    the two zeros do not differ. *)
Definition strict_ne (a b : num) : bool := negb (SFeqb a b).

(** [a !== a], the test for NaN. *)
Definition isNaN (a : num) : bool :=
  match a with
  | S754_nan => true
  | _ => false
  end.

(** [Math.min] and [Math.max] of two numbers: NaN if either is NaN, and the
    negative zero counts as smaller than the positive one. *)
Definition min (a b : num) : num :=
  match a, b with
  | S754_nan, _ | _, S754_nan => S754_nan
  | S754_zero sa, S754_zero sb => S754_zero (sa || sb)
  | _, _ => if SFltb b a then b else a
  end.

Definition max (a b : num) : num :=
  match a, b with
  | S754_nan, _ | _, S754_nan => S754_nan
  | S754_zero sa, S754_zero sb => S754_zero (sa && sb)
  | _, _ => if SFltb a b then b else a
  end.

(** [Math.floor]: the largest whole number that is not above [a]; zeros,
    infinities and NaN are returned as they are.  A finite number
    [m * 2 ^ e] with [e] non-negative is whole; otherwise the floor is the
    quotient of [m] (with its sign) by [2 ^ (- e)], rounded down. *)
Definition floor (a : num) : num :=
  match a with
  | S754_finite s m e =>
      if (0 <=? e)%Z then a
      else
        match (cond_Zopp s (Zpos m) / 2 ^ (- e))%Z with
        | Z0 => S754_zero s
        | n => of_Z n
        end
  | _ => a
  end.

(** The global [isFinite]: neither NaN nor an infinity. *)
Definition isFinite (a : num) : bool :=
  match a with
  | S754_zero _ | S754_finite _ _ _ => true
  | _ => false
  end.

(** A number whose sign bit is [s]. *)
Definition signed (s : bool) (a : num) : Prop :=
  match a with
  | S754_zero s' | S754_infinity s' | S754_finite s' _ _ => s' = s
  | S754_nan => False
  end.

(** A number that is not negative: a zero of either sign, or a number above
    zero. *)
Definition not_negative (a : num) : Prop :=
  match a with
  | S754_zero _ => True
  | S754_infinity s | S754_finite s _ _ => s = false
  | S754_nan => False
  end.

End JS.

(** [Array.prototype.forEach] with a callback that updates the enclosing
    state [S]: the callback runs on the elements in index order. *)
Definition forEach {A S : Type} (xs : list A) (callback : S → A → S) (s : S) : S :=
  fold_left callback xs s.

(** [forEach] as the index loop of the language definition: [k] runs from its
    start value up to the length of the array, and the callback is called on
    the element at [k].  The result carries the list of visited indices. *)
Fixpoint forEach_loop {A S : Type} (fuel : nat) (k : nat) (xs : list A)
    (callback : S → A → S) (s : S) (visited : list nat) : option (S * list nat) :=
  match fuel with
  | O => None
  | Datatypes.S fuel' =>
      match xs !! k with
      | None => Some (s, visited)
      | Some x => forEach_loop fuel' (Datatypes.S k) xs callback (callback s x) (visited ++ [k])
      end
  end.

(** ** d3 helpers used by the legend *)

(** [d3.sum(array, accessor)]: the values of the accessor, converted to
    numbers, are added one by one to 0; a value that is not a number (NaN) is
    skipped. *)
Definition d3_sum {A : Type} (array : list A) (accessor : A → JS.num) : JS.num :=
  fold_left (λ s x, let a := accessor x in if JS.isNaN a then s else JS.add s a)
            array JS.zero.

(** [d3.max(array)]: the first value [b] with [b >= b] (so not NaN) is taken,
    and replaced by every later value that is greater; [undefined] if there
    is no such value. *)
Fixpoint d3_max (array : list JS.num) : option JS.num :=
  match array with
  | [] => None
  | b :: rest =>
      if JS.ge b b then Some (fold_left (λ a b, if JS.gt b a then b else a) rest b)
      else d3_max rest
  end.

(** ** HorizontalLegend *)

Module HorizontalLegend.

Definition padding : JS.num := JS.of_Z 5.

(** The fields of the component that the layout code reads and writes,
    together with the domain of its colour scale.  [entryLengths] holds the
    own properties of the object of that name, which is created as [{}] and
    so inherits from [Object.prototype]. *)
Record t : Type := mk {
  scale_domain : list string;
  textHeight : JS.num;
  entryLengths : gmap string JS.num;
  rows : option (list (list string));
  previousOfferedWidth : option JS.num;
  numRowsToDraw : JS.num
}.

Record ISpaceRequest : Type := mkRequest {
  width : JS.num;
  height : JS.num;
  wantsWidth : bool;
  wantsHeight : bool
}.

(** [this.entryLengths[e] = v] for a number [v].  The key [__proto__] names
    the prototype of the object, and assigning it a number stores nothing;
    every other key becomes an own property. *)
Definition set_length (lengths : gmap string JS.num) (e : string) (v : JS.num)
    : gmap string JS.num :=
  if decide (e = "__proto__"%string) then lengths else <[e := v]> lengths.

(** The number that [this.entryLengths[e]] converts to where the code
    compares, subtracts or sums it.  An own property is the number stored.
    Otherwise the read gives [Object.prototype] (for [__proto__]), a member
    inherited from it, or [undefined], and each of these converts to NaN. *)
Definition get_length (lengths : gmap string JS.num) (e : string) : JS.num :=
  if decide (e = "__proto__"%string) then JS.NaN else JS.of_lookup (lengths !! e).

(** The variables of [packRows] while its loop runs.  [currentRow] is a
    reference to one of the arrays stored in [this.rows]; it is kept as the
    position of that array in [pk_rows], so that [currentRow.push] updates
    the row inside [this.rows]. *)
Record pack : Type := mkPack {
  pk_rows : list (list string);
  currentRow : nat;
  spaceLeft : JS.num
}.

(** The body of the loop of [packRows]. *)
Definition packEntry (availableWidth : JS.num) (lengths : gmap string JS.num)
    (p : pack) (e : string) : pack :=
  let entryLength := get_length lengths e in
  let p1 :=
    if JS.gt entryLength (spaceLeft p) then
      {| pk_rows := pk_rows p ++ [[]];
         currentRow := length (pk_rows p);
         spaceLeft := availableWidth |}
    else p in
  {| pk_rows := alter (λ row, row ++ [e]) (currentRow p1) (pk_rows p1);
     currentRow := currentRow p1;
     spaceLeft := JS.sub (spaceLeft p1) entryLength |}.

Definition packStart (availableWidth : JS.num) : pack :=
  {| pk_rows := [[]]; currentRow := 0; spaceLeft := availableWidth |}.

Definition packLoop (availableWidth : JS.num) (lengths : gmap string JS.num)
    (entries : list string) : pack :=
  forEach entries (packEntry availableWidth lengths) (packStart availableWidth).

(** The shape of the variables of [packRows] between two rounds of its loop:
    [currentRow] refers to the last array of [this.rows]. *)
Definition at_last_row (p : pack) (closed : list (list string)) (row : list string) : Prop :=
  pk_rows p = closed ++ [row] ∧ currentRow p = length closed.

Definition packRows (st : t) (availableWidth : JS.num) : t :=
  let p := packLoop availableWidth (entryLengths st) (scale_domain st) in
  mk (scale_domain st) (textHeight st) (entryLengths st)
     (Some (pk_rows p)) (previousOfferedWidth st) (numRowsToDraw st).

(** What is left of the available width after the entries of a row have been
    subtracted from it one by one, as the loop of [packRows] does. *)
Definition spaceAfter (availableWidth : JS.num) (lengths : gmap string JS.num)
    (row : list string) : JS.num :=
  fold_left (λ space e, JS.sub space (get_length lengths e)) row availableWidth.

(** Every entry of the row found room: its length did not exceed what was
    left of the available width after the entries before it. *)
Definition placed_in_space (availableWidth : JS.num) (lengths : gmap string JS.num)
    (row : list string) : Prop :=
  ∀ before e after,
    row = before ++ e :: after →
    JS.gt (get_length lengths e) (spaceAfter availableWidth lengths before) = false.

Section Measured.

(** The text measurer ([Util.Text.getTextMeasurer]): the width and the
    height of a text as rendered, and the sample text whose height is
    taken as the text height ([Util.Text.HEIGHT_TEXT]). *)
Variable measure : string → JS.num * JS.num.
Variable HEIGHT_TEXT : string.

Definition sizeEntry (textHeight availableWidth : JS.num)
    (lengths : gmap string JS.num) (e : string) : gmap string JS.num :=
  let textLength := fst (measure e) in
  set_length lengths e
    (JS.min (JS.add (JS.add textHeight textLength) padding) availableWidth).

Definition sizeEntries (st : t) (availableWidth : JS.num) : t :=
  let th := snd (measure HEIGHT_TEXT) in
  let entries := scale_domain st in
  let lengths := forEach entries (sizeEntry th availableWidth) ∅ in
  packRows
    (mk (scale_domain st) th lengths (rows st)
        (previousOfferedWidth st) (numRowsToDraw st))
    availableWidth.

(** [offeredWidth !== this.previousOfferedWidth]; the field is
    [undefined] before the first request and [null] after
    [_invalidateLayout], and a number differs from both. *)
Definition width_changed (offeredWidth : JS.num) (previous : option JS.num) : bool :=
  match previous with
  | Some w => JS.strict_ne offeredWidth w
  | None => true
  end.

Definition rowLength (lengths : gmap string JS.num) (row : list string) : JS.num :=
  d3_sum row (get_length lengths).

Definition desiredHeight (st : t) (rs : list (list string)) : JS.num :=
  JS.add (JS.mul (JS.of_nat (length rs)) (textHeight st))
         (JS.mul (JS.of_Z 2) padding).

(** [_requestedSpace]; [None] stands for the TypeError of reading
    [this.rows.map] while [this.rows] is still [undefined]. *)
Definition _requestedSpace (st : t) (offeredWidth offeredHeight : JS.num)
    : option (t * ISpaceRequest) :=
  let st1 :=
    if width_changed offeredWidth (previousOfferedWidth st) then
      let availableWidthForEntries :=
        JS.max JS.zero (JS.sub offeredWidth padding) in
      let s := sizeEntries st availableWidthForEntries in
      mk (scale_domain s) (textHeight s) (entryLengths s) (rows s)
         (Some offeredWidth) (numRowsToDraw s)
    else st in
  match rows st1 with
  | None => None
  | Some rs =>
      let rowLengths := map (rowLength (entryLengths st1)) rs in
      let longestRowLength :=
        match d3_max rowLengths with
        | None => JS.zero
        | Some l => l
        end in
      let desiredWidth := JS.add padding longestRowLength in
      let rowsAvailable :=
        JS.floor (JS.div (JS.sub offeredHeight (JS.mul (JS.of_Z 2) padding))
                         (textHeight st1)) in
      let rowsAvailable :=
        if JS.isNaN rowsAvailable then JS.zero else rowsAvailable in
      let n := JS.min rowsAvailable (JS.of_nat (length rs)) in
      let acceptableHeight :=
        JS.add (JS.mul n (textHeight st1)) (JS.mul (JS.of_Z 2) padding) in
      Some (mk (scale_domain st1) (textHeight st1) (entryLengths st1)
               (rows st1) (previousOfferedWidth st1) n,
            {| width := desiredWidth;
               height := acceptableHeight;
               wantsWidth := JS.lt offeredWidth desiredWidth;
               wantsHeight := JS.lt offeredHeight (desiredHeight st1 rs) |})
  end.

(** [_invalidateLayout] forgets the offered width, which forces the next
    request to size the entries again. *)
Definition _invalidateLayout (st : t) : t :=
  mk (scale_domain st) (textHeight st) (entryLengths st) (rows st)
     None (numRowsToDraw st).

(** The fields as the class initialisers and the constructor leave
    them. *)
Definition create (colorScaleDomain : list string) : t :=
  mk colorScaleDomain JS.zero ∅ None None JS.zero.

(** A change of the scale's domain reaches the legend through the
    listener registered in the constructor ([updateDomain]). *)
Definition updateDomain (st : t) (newDomain : list string) : t :=
  _invalidateLayout
    (mk newDomain (textHeight st) (entryLengths st) (rows st)
        (previousOfferedWidth st) (numRowsToDraw st)).

(** The state of a legend whose rows, if it has offered a width before,
    come from packing its current domain.  The constructor, a change of
    the domain and every space request leave the legend in such a
    state. *)
Definition laid_out (st : t) : Prop :=
  previousOfferedWidth st = None ∨
  ∃ availableWidth,
    rows st = Some (pk_rows (packLoop availableWidth (entryLengths st) (scale_domain st))).

(** The state of a legend that, if it remembers an offered width, holds the
    text height, the entry lengths and the rows that [sizeEntries] computes
    for that width and the current domain. *)
Definition sized (st : t) : Prop :=
  ∀ w, previousOfferedWidth st = Some w →
    textHeight st = snd (measure HEIGHT_TEXT) ∧
    entryLengths st =
      forEach (scale_domain st)
        (sizeEntry (snd (measure HEIGHT_TEXT))
                   (JS.max JS.zero (JS.sub w padding))) ∅ ∧
    rows st =
      Some (pk_rows (packLoop (JS.max JS.zero (JS.sub w padding))
                              (entryLengths st) (scale_domain st))).

End Measured.

End HorizontalLegend.

(** ** DataSource *)

Module DataSource.

(** What a JavaScript parameter or field of type [T] can hold. *)
Inductive js (T : Type) : Type :=
| undefined
| null
| value (v : T).
Arguments undefined {T}.
Arguments null {T}.
Arguments value {T} v.

(** [x == null] holds of [null] and of [undefined] (an omitted argument). *)
Definition eq_null {T : Type} (x : js T) : bool :=
  match x with
  | value _ => false
  | _ => true
  end.

(** What a method of the overloaded getter-setter kind returns: the stored
    value, or the object the method was called on. *)
Inductive ret (T : Type) : Type :=
| stored (v : T)
| this.
Arguments stored {T} v.
Arguments this {T}.

Section Fields.

(** The elements of the data array, the metadata objects, and the empty
    object [{}] that the constructor takes as default metadata. *)
Variables (elt meta : Type) (empty_object : meta).

(** The fields of a DataSource, and the calls of [_broadcast] made so
    far, each with the data and metadata that the listeners found
    stored. *)
Record t : Type := mk {
  _data : js (list elt);
  _metadata : js meta;
  broadcasts : list (js (list elt) * js meta)
}.

(** Modelled from the spec: [_broadcast] of the base class Broadcaster,
    which is not part of the sources at hand; it notifies the registered
    listeners, here recorded as one more entry of [broadcasts]. *)
Definition _broadcast (ds : t) : t :=
  mk (_data ds) (_metadata ds) (broadcasts ds ++ [(_data ds, _metadata ds)]).

(** A default parameter value replaces [undefined] only. *)
Definition default {T : Type} (arg : js T) (d : T) : js T :=
  match arg with
  | undefined => value d
  | other => other
  end.

Definition constructor (data : js (list elt)) (metadata : js meta) : t :=
  mk (default data []) (default metadata empty_object) [].

Definition data (arg : js (list elt)) (ds : t) : ret (js (list elt)) * t :=
  if eq_null arg then (stored (_data ds), ds)
  else (this, _broadcast (mk arg (_metadata ds) (broadcasts ds))).

Definition metadata (arg : js meta) (ds : t) : ret (js meta) * t :=
  if eq_null arg then (stored (_metadata ds), ds)
  else (this, _broadcast (mk (_data ds) arg (broadcasts ds))).

(** A call of one of the two methods, and a sequence of such calls. *)
Inductive call : Type :=
| call_data (arg : js (list elt))
| call_metadata (arg : js meta).

Definition perform (ds : t) (c : call) : t :=
  match c with
  | call_data arg => snd (data arg ds)
  | call_metadata arg => snd (metadata arg ds)
  end.

Definition perform_all (cs : list call) (ds : t) : t :=
  fold_left perform cs ds.

End Fields.

Arguments _data {elt meta} _.
Arguments _metadata {elt meta} _.
Arguments broadcasts {elt meta} _.
Arguments mk {elt meta} _ _ _.
Arguments _broadcast {elt meta} _.
Arguments data {elt meta} _ _.
Arguments metadata {elt meta} _ _.
Arguments call_data {elt meta} _.
Arguments call_metadata {elt meta} _.
Arguments perform {elt meta} _ _.
Arguments perform_all {elt meta} _ _.

End DataSource.

(** ** XDragBoxLayer *)

Module XDragBoxLayer.

Local Open Scope Q_scope.

Record Point : Type := mkPoint { x : Q; y : Q }.

Record Bounds : Type := mkBounds { topLeft : Point; bottomRight : Point }.

(** The edges of the box that a resize gesture has taken hold of: the left or
    the right one, and, when the drag starts on a corner, the top or the
    bottom one too. *)
Inductive x_edge : Type := left_edge | right_edge.
Inductive y_edge : Type := top_edge | bottom_edge.

(** Modelled from the spec: the drag box layer, whose class is not part of
    the sources at hand (only its test file is).  The layer holds a
    rectangular selection box inside a component of a given size; a pointer
    drag resizes the box when the layer is resizable, and moves it when the
    layer is movable. *)
Record t : Type := mk {
  width : Q;
  height : Q;
  box : Bounds;
  resizable : bool;
  movable : bool
}.

(** Modelled from the spec: a resize drag on a box that is free along both
    axes takes the edges held to the end point of the drag. *)
Definition resizeBox (b : Bounds) (ex : x_edge) (ey : option y_edge)
    (dragTo : Point) : Bounds :=
  let tl := topLeft b in
  let br := bottomRight b in
  let '(x_left, x_right) :=
    match ex with
    | left_edge => (x dragTo, x br)
    | right_edge => (x tl, x dragTo)
    end in
  let '(y_top, y_bottom) :=
    match ey with
    | None => (y tl, y br)
    | Some top_edge => (y dragTo, y br)
    | Some bottom_edge => (y tl, y dragTo)
    end in
  mkBounds (mkPoint x_left y_top) (mkPoint x_right y_bottom).

(** Modelled from the spec: a move drag on a box that is free along both axes
    shifts the box by the distance dragged. *)
Definition moveBox (b : Bounds) (dragFrom dragTo : Point) : Bounds :=
  let dx := x dragTo - x dragFrom in
  let dy := y dragTo - y dragFrom in
  mkBounds (mkPoint (x (topLeft b) + dx) (y (topLeft b) + dy))
           (mkPoint (x (bottomRight b) + dx) (y (bottomRight b) + dy)).

(** Modelled from the spec: the constraint of the box to the x axis.  The box
    keeps its left and right edges and spans the component from top to
    bottom. *)
Definition constrainX (l : t) (b : Bounds) : Bounds :=
  mkBounds (mkPoint (x (topLeft b)) 0) (mkPoint (x (bottomRight b)) (height l)).

Definition with_box (l : t) (b : Bounds) : t :=
  mk (width l) (height l) b (resizable l) (movable l).

(** Modelled from the spec: [bounds(newBounds)] and [bounds()] of the layer
    constrained to the x axis. *)
Definition setBounds (l : t) (newBounds : Bounds) : t :=
  with_box l (constrainX l newBounds).

Definition bounds (l : t) : Bounds := box l.

(** Modelled from the spec: the two drag gestures on the constrained layer.
    A gesture has no effect on a layer that does not allow it. *)
Definition resize (l : t) (ex : x_edge) (ey : option y_edge) (dragTo : Point) : t :=
  if resizable l then setBounds l (resizeBox (box l) ex ey dragTo) else l.

Definition move (l : t) (dragFrom dragTo : Point) : t :=
  if movable l then setBounds l (moveBox (box l) dragFrom dragTo) else l.

(** Modelled from the spec: a layer as its constructor and [renderTo] leave
    it, in a component of the given size. *)
Definition create (w h : Q) : t :=
  mk w h (mkBounds (mkPoint 0 0) (mkPoint 0 h)) false false.

Definition set_resizable (l : t) (flag : bool) : t :=
  mk (width l) (height l) (box l) flag (movable l).

Definition set_movable (l : t) (flag : bool) : t :=
  mk (width l) (height l) (box l) (resizable l) flag.

End XDragBoxLayer.

(** ** DataSource: sequences of calls *)

Module DataSourceCalls.

Import DataSource.

(** The values that a sequence of calls passes to [data], and to [metadata],
    leaving out the calls without a value. *)
Definition data_written {elt meta : Type} (cs : list (call elt meta)) : list (list elt) :=
  omap (λ c, match c with call_data (value d) => Some d | _ => None end) cs.

Definition metadata_written {elt meta : Type} (cs : list (call elt meta)) : list meta :=
  omap (λ c, match c with call_metadata (value m) => Some m | _ => None end) cs.

End DataSourceCalls.

(** * Properties *)

(** ** The loop of [forEach] *)

Section ForEach.

Context {A S : Type}.
Implicit Types (xs : list A) (callback : S → A → S) (s : S).

Lemma forEach_app xs ys callback s :
  forEach (xs ++ ys) callback s = forEach ys callback (forEach xs callback s).
Proof. unfold forEach. apply fold_left_app. Qed.

Lemma forEach_snoc xs x callback s :
  forEach (xs ++ [x]) callback s = callback (forEach xs callback s) x.
Proof. by rewrite forEach_app. Qed.

(** With fuel for the remaining elements and the final test, the index loop
    started at [k] runs the callback over the elements from [k] on, and
    visits exactly the indices from [k] to the end. *)
Lemma forEach_loop_from xs callback :
  ∀ fuel k s visited,
    (length xs - k < fuel)%nat →
    forEach_loop fuel k xs callback s visited =
      Some (forEach (drop k xs) callback s, visited ++ seq k (length xs - k)).
Proof.
  induction fuel as [|fuel IH]; intros k s visited Hfuel; [lia|].
  cbn [forEach_loop]. destruct (xs !! k) as [x|] eqn:Hk.
  - pose proof (lookup_lt_Some _ _ _ Hk) as Hlt.
    rewrite IH by lia. rewrite (drop_S _ _ _ Hk).
    replace (length xs - k)%nat with (Datatypes.S (length xs - Datatypes.S k)) by lia.
    cbn [seq]. by rewrite <- app_assoc.
  - apply lookup_ge_None in Hk.
    rewrite drop_ge by done.
    replace (length xs - k)%nat with O by lia.
    cbn [seq]. by rewrite app_nil_r.
Qed.

End ForEach.

(** ** Comparisons of doubles *)

Module NumberFacts.

Lemma compare_nan_r (x : JS.num) : SFcompare x S754_nan = None.
Proof. by destruct x. Qed.

Lemma compare_refl (x : JS.num) :
  JS.isNaN x = false → SFcompare x x = Some Eq.
Proof.
  destruct x as [s|s| |s m e]; cbn; try done; intros _.
  - by destruct s.
  - rewrite Z.compare_refl.
    change (Pos.compare_cont Eq m m) with (Pos.compare m m).
    rewrite Pos.compare_refl. by destruct s.
Qed.

Lemma ltb_irrefl (x : JS.num) : SFltb x x = false.
Proof.
  unfold SFltb. destruct (JS.isNaN x) eqn:Hnan.
  - by destruct x.
  - by rewrite compare_refl.
Qed.

Lemma compare_antisym (x y : JS.num) :
  SFcompare y x = option_map CompOpp (SFcompare x y).
Proof.
  destruct x as [sx|sx| |sx mx ex], y as [sy|sy| |sy my ey]; cbn;
    try done; try (by destruct sx); try (by destruct sy);
    try (by destruct sx, sy).
  change (Pos.compare_cont Eq my mx) with (Pos.compare my mx).
  change (Pos.compare_cont Eq mx my) with (Pos.compare mx my).
  rewrite (Z.compare_antisym ex ey), (Pos.compare_antisym mx my).
  destruct sx, sy; try done;
    destruct (ex ?= ey)%Z; cbn; try done;
    destruct (mx ?= my)%positive; done.
Qed.

Lemma ltb_asym (x y : JS.num) : SFltb x y = true → SFltb y x = false.
Proof.
  unfold SFltb. rewrite (compare_antisym x y).
  by destruct (SFcompare x y) as [[]|].
Qed.

(** Two numbers of which the second is not less than the first: the first
    is at most the second. *)
Lemma leb_of_not_ltb (x y : JS.num) :
  JS.isNaN x = false → JS.isNaN y = false →
  SFltb y x = false → SFleb x y = true.
Proof.
  unfold SFltb, SFleb. rewrite (compare_antisym x y).
  intros Hx Hy. destruct (SFcompare x y) as [[]|] eqn:Hcmp; try done.
  destruct x, y; try done; cbn in Hcmp; by destruct s.
Qed.

Lemma gt_nan_l (b : JS.num) : JS.gt JS.NaN b = false.
Proof. unfold JS.gt, SFltb. by rewrite compare_nan_r. Qed.

(** [Math.min(x, w) > w] is false, whatever [x] and [w] are. *)
Lemma gt_min_r (x w : JS.num) : JS.gt (JS.min x w) w = false.
Proof.
  unfold JS.gt, JS.min.
  destruct (SFltb w x) eqn:Hlt.
  - destruct x as [sx|sx| |sx mx ex], w as [sw|sw| |sw mw ew];
      try done; apply ltb_irrefl.
  - destruct x as [sx|sx| |sx mx ex], w as [sw|sw| |sw mw ew]; done.
Qed.

(** [Math.min(x, w) <= w] for numbers [x] and [w]. *)
Lemma le_min_r (x w : JS.num) :
  JS.isNaN x = false → JS.isNaN w = false → JS.le (JS.min x w) w = true.
Proof.
  intros Hx Hw. unfold JS.le, JS.min.
  destruct (SFltb w x) eqn:Hlt.
  - destruct x as [sx|sx| |sx mx ex], w as [sw|sw| |sw mw ew]; try done;
      apply leb_of_not_ltb; try done; apply ltb_irrefl.
  - destruct x as [sx|sx| |sx mx ex], w as [sw|sw| |sw mw ew]; try done;
      by apply leb_of_not_ltb.
Qed.

(** A number does not differ from itself. *)
Lemma strict_ne_refl (x : JS.num) :
  JS.isNaN x = false → JS.strict_ne x x = false.
Proof.
  intros Hx. unfold JS.strict_ne, SFeqb. by rewrite compare_refl.
Qed.

(** *** Signs of results *)

Lemma signed_not_nan s x : JS.signed s x → JS.isNaN x = false.
Proof. by destruct x. Qed.

Lemma not_nan_signed x : JS.isNaN x = false → ∃ s, JS.signed s x.
Proof. destruct x as [s|s| |s m e]; try done; intros _; by exists s. Qed.

Lemma signed_not_negative x : JS.signed false x → JS.not_negative x.
Proof. by destruct x. Qed.

Lemma not_negative_not_nan x : JS.not_negative x → JS.isNaN x = false.
Proof. by destruct x. Qed.

Lemma not_negative_lt_zero x : JS.not_negative x → JS.lt x JS.zero = false.
Proof. destruct x as [s|s| |s m e]; cbn; try done; by intros ->. Qed.

Lemma lt_zero_not_negative x :
  JS.isNaN x = false → JS.lt x JS.zero = false → JS.not_negative x.
Proof. destruct x as [s|[]| |[] m e]; done. Qed.

Lemma iter_pos_invariant {A : Type} (P : A → Prop) (f : A → A) :
  (∀ x, P x → P (f x)) → ∀ p x, P x → P (SpecFloat.iter_pos f p x).
Proof.
  intros Hf. induction p as [p IH|p IH|]; intros x Hx; cbn; auto.
Qed.

Lemma shr_1_nonneg mrs : (0 ≤ shr_m mrs)%Z → (0 ≤ shr_m (shr_1 mrs))%Z.
Proof.
  destruct mrs as [m r s]. cbn. destruct m as [|[p|p|]|[p|p|]]; cbn; lia.
Qed.

Lemma shr_fexp_nonneg m e l :
  (0 ≤ m)%Z → (0 ≤ shr_m (fst (shr_fexp JS.prec JS.emax m e l)))%Z.
Proof.
  intros Hm. unfold shr_fexp, shr.
  assert (Hstart : (0 ≤ shr_m (shr_record_of_loc m l))%Z) by (by destruct l as [|[]]).
  destruct (_ - e)%Z; cbn [fst]; try done.
  by apply (iter_pos_invariant (λ mrs, (0 ≤ shr_m mrs)%Z) shr_1 shr_1_nonneg).
Qed.

Lemma round_nearest_even_nonneg m l :
  (0 ≤ m)%Z → (0 ≤ round_nearest_even m l)%Z.
Proof.
  intros Hm. destruct l as [|[]]; cbn; try done; [|lia].
  destruct (Z.even m); lia.
Qed.

(** Rounding a mantissa that is not negative gives a zero, a finite number
    or an infinity of the sign asked for, never NaN. *)
Lemma binary_round_aux_signed s m e l :
  (0 ≤ m)%Z → JS.signed s (binary_round_aux JS.prec JS.emax s m e l).
Proof.
  intros Hm. unfold binary_round_aux.
  pose proof (shr_fexp_nonneg m e l Hm) as H1.
  destruct (shr_fexp JS.prec JS.emax m e l) as [mrs' e'].
  cbn [fst] in H1.
  pose proof (shr_fexp_nonneg _ e' loc_Exact
                (round_nearest_even_nonneg (shr_m mrs') (loc_of_shr_record mrs') H1)) as H2.
  destruct (shr_fexp JS.prec JS.emax _ e' loc_Exact) as [mrs'' e''].
  cbn [fst] in H2.
  destruct (shr_m mrs'') as [|p|p]; cbn; [done| |lia].
  by destruct (e'' <=? _)%Z.
Qed.

Lemma binary_round_signed s m e :
  JS.signed s (binary_round JS.prec JS.emax s m e).
Proof.
  unfold binary_round. destruct (shl_align _ _ _) as [mz ez].
  by apply binary_round_aux_signed.
Qed.

Lemma binary_normalize_not_nan z e :
  JS.isNaN (binary_normalize JS.prec JS.emax z e false) = false.
Proof.
  destruct z as [|p|p]; cbn [binary_normalize]; [done| |];
    eapply signed_not_nan, binary_round_signed.
Qed.

Lemma of_Z_signed z : JS.signed (z <? 0)%Z (JS.of_Z z).
Proof.
  unfold JS.of_Z. destruct z as [|p|p]; cbn [binary_normalize]; [done| |];
    apply binary_round_signed.
Qed.

Lemma of_nat_not_negative n : JS.not_negative (JS.of_nat n).
Proof.
  apply signed_not_negative. unfold JS.of_nat.
  assert (Hsign : (Z.of_nat n <? 0)%Z = false) by (apply Z.ltb_ge; lia).
  rewrite <- Hsign. apply of_Z_signed.
Qed.

(** Subtracting a finite number from a number gives a number. *)
Lemma sub_finite_not_nan x s m e :
  JS.isNaN x = false → JS.isNaN (JS.sub x (S754_finite s m e)) = false.
Proof.
  destruct x as [sx|sx| |sx mx ex]; try done; intros _.
  unfold JS.sub, SFsub. apply binary_normalize_not_nan.
Qed.

(** Dividing by a finite number above zero keeps the sign. *)
Lemma div_positive_signed s x m e :
  JS.signed s x → JS.signed s (JS.div x (S754_finite false m e)).
Proof.
  destruct x as [sx|sx| |sx mx ex]; cbn; try done;
    try (intros ->; by destruct s).
  intros ->. unfold SFdiv_core_binary.
  set (m' := match _ with Z0 => _ | Zpos _ => _ | Zneg _ => _ end).
  assert (Hm' : (0 ≤ m')%Z).
  { subst m'. destruct (_ - _ - _)%Z; try done. by apply Z.shiftl_nonneg. }
  pose proof (Z.div_pos m' (Zpos m) Hm' ltac:(done)) as Hq.
  unfold Z.div in Hq. destruct (Z.div_eucl m' (Z.pos m)) as [q r]. cbn [fst] in Hq.
  rewrite xorb_false_r. by apply binary_round_aux_signed.
Qed.

Lemma div_positive_not_negative x m e :
  JS.not_negative x → JS.not_negative (JS.div x (S754_finite false m e)).
Proof.
  destruct x as [sx|sx| |sx mx ex]; try done.
  - intros ->. by apply signed_not_negative, (div_positive_signed false (S754_infinity false)).
  - intros ->. by apply signed_not_negative,
      (div_positive_signed false (S754_finite false mx ex)).
Qed.

(** [Math.floor] keeps the sign. *)
Lemma floor_signed s x : JS.signed s x → JS.signed s (JS.floor x).
Proof.
  destruct x as [sx|sx| |sx mx ex]; try done. cbn [JS.signed JS.floor].
  intros ->. destruct (0 <=? ex)%Z eqn:He; [done|].
  assert (Hpow : (0 < 2 ^ (- ex))%Z) by (apply Z.pow_pos_nonneg; lia).
  destruct s; cbn [cond_Zopp].
  - assert (Hn : (- Z.pos mx / 2 ^ (- ex) < 0)%Z).
    { apply Z.div_lt_upper_bound; lia. }
    destruct (- Z.pos mx / 2 ^ (- ex))%Z as [|p|p] eqn:Hq; try lia.
    apply (of_Z_signed (Z.neg p)).
  - assert (Hn : (0 ≤ Z.pos mx / 2 ^ (- ex))%Z) by (apply Z.div_pos; lia).
    destruct (Z.pos mx / 2 ^ (- ex))%Z as [|p|p] eqn:Hq; try lia; [done|].
    apply (of_Z_signed (Z.pos p)).
Qed.

Lemma floor_not_negative x : JS.not_negative x → JS.not_negative (JS.floor x).
Proof.
  destruct x as [sx|sx| |sx mx ex]; try done.
  intros ->. by apply signed_not_negative, (floor_signed false (S754_finite false mx ex)).
Qed.

Lemma min_not_negative a b :
  JS.not_negative a → JS.not_negative b → JS.not_negative (JS.min a b).
Proof.
  destruct a as [sa|sa| |sa ma ea], b as [sb|sb| |sb mb eb]; try done;
    intros Ha Hb; unfold JS.min; destruct (SFltb _ _); done.
Qed.

(** A finite number above zero. *)
Lemma positive_finite x :
  JS.isFinite x = true → JS.gt x JS.zero = true → ∃ m e, x = S754_finite false m e.
Proof. destruct x as [s|s| |[] m e]; try done. eauto. Qed.

(** *** Multiplying by one *)

Local Arguments Pos.mul _ _ : simpl nomatch.

Lemma Zpos_succ p : Zpos (PosDef.Pos.succ p) = (Zpos p + 1)%Z.
Proof. exact (Pos2Z.inj_succ p). Qed.

Lemma digits2_pos_shift m :
  Zpos (digits2_pos (Pos.mul 4503599627370496 m)) = (Zpos (digits2_pos m) + 52)%Z.
Proof. cbn [Pos.mul digits2_pos]. rewrite !Zpos_succ. lia. Qed.

(** The product of 1 and a double is that double. *)
Lemma mul_one_l (x : JS.num) :
  valid_binary JS.prec JS.emax x = true → JS.mul (JS.of_Z 1) x = x.
Proof.
  destruct x as [s|s| |s m e]; try done.
  cbn [valid_binary]. unfold bounded, canonical_mantissa.
  intros Hvalid. apply andb_prop in Hvalid as [Hcanon Hbound].
  apply Z.eqb_eq in Hcanon.
  change (JS.mul (JS.of_Z 1) (S754_finite s m e)) with
    (binary_round_aux JS.prec JS.emax s (Zpos (Pos.mul 4503599627370496 m))
                      (-52 + e) loc_Exact).
  unfold binary_round_aux, shr_fexp, Zdigits2. rewrite digits2_pos_shift.
  replace (Z.pos (digits2_pos m) + 52 + (-52 + e))%Z
    with (Z.pos (digits2_pos m) + e)%Z by lia.
  rewrite Hcanon.
  replace (e - (-52 + e))%Z with 52%Z by lia.
  cbn [shr shr_record_of_loc SpecFloat.iter_pos Pos.mul shr_1 orb fst snd shr_m
       round_nearest_even loc_of_shr_record].
  replace (-52 + e + 52)%Z with e by lia.
  rewrite Hcanon, Z.sub_diag. cbn [shr shr_m]. by rewrite Hbound.
Qed.

End NumberFacts.

(** ** Row packing *)

Module LegendFacts.

Import HorizontalLegend.

Lemma packStart_at_last_row availableWidth :
  at_last_row (packStart availableWidth) [] [].
Proof. by split. Qed.

(** One round of the loop, on variables of that shape: either a new row is
    allocated for the entry, or the entry joins the current row. *)
Lemma packEntry_at_last_row availableWidth lengths p closed row e :
  at_last_row p closed row →
  let entryLength := get_length lengths e in
  let p' := packEntry availableWidth lengths p e in
  if JS.gt entryLength (spaceLeft p) then
    at_last_row p' (closed ++ [row]) [e] ∧
    spaceLeft p' = JS.sub availableWidth entryLength
  else
    at_last_row p' closed (row ++ [e]) ∧
    spaceLeft p' = JS.sub (spaceLeft p) entryLength.
Proof.
  intros [Hrows Hcur]. cbn zeta. unfold packEntry, at_last_row.
  destruct (JS.gt _ _); cbn [pk_rows currentRow spaceLeft].
  - rewrite Hrows. split; [|done]. split; [|done].
    rewrite <- (Nat.add_0_r (length (closed ++ [row]))).
    by rewrite alter_app_r.
  - rewrite Hrows, Hcur. split; [|done]. split; [|done].
    rewrite <- (Nat.add_0_r (length closed)).
    by rewrite alter_app_r.
Qed.

Lemma packLoop_snoc availableWidth lengths entries e :
  packLoop availableWidth lengths (entries ++ [e]) =
  packEntry availableWidth lengths (packLoop availableWidth lengths entries) e.
Proof. unfold packLoop. apply forEach_snoc. Qed.

(** The loop keeps that shape, and the rows hold the entries seen so far, in
    the order of the domain. *)
Lemma packLoop_at_last_row availableWidth lengths entries :
  ∃ closed row,
    at_last_row (packLoop availableWidth lengths entries) closed row ∧
    concat (closed ++ [row]) = entries.
Proof.
  induction entries as [|e entries IH] using rev_ind.
  - exists [], []. split; [apply packStart_at_last_row | done].
  - destruct IH as (closed & row & Hshape & Hconcat).
    rewrite packLoop_snoc.
    pose proof (packEntry_at_last_row availableWidth lengths _ _ _ e Hshape) as Hstep.
    cbn zeta in Hstep. destruct (JS.gt _ _).
    + exists (closed ++ [row]), [e]. split; [apply Hstep|].
      rewrite concat_app, Hconcat. cbn. by rewrite ?app_nil_r.
    + exists closed, (row ++ [e]). split; [apply Hstep|].
      rewrite concat_app in *. cbn in *. rewrite ?app_nil_r in *.
      by rewrite app_assoc, Hconcat.
Qed.

(** C8: [packRows] keeps the order and the multiplicity of the entries.  For
    every legend state (so for every domain and every assignment of entry
    lengths, also one that leaves entries of the domain without a length) and
    every available width, [packRows] stores rows whose concatenation, in
    order, is the domain of the colour scale. *)
Theorem packRows_concat (st : t) (availableWidth : JS.num) :
  ∃ rs, rows (packRows st availableWidth) = Some rs ∧
        concat rs = scale_domain st.
Proof.
  destruct (packLoop_at_last_row availableWidth (entryLengths st) (scale_domain st))
    as (closed & row & [Hrows _] & Hconcat).
  exists (closed ++ [row]). split; [|done].
  unfold packRows. cbn [rows]. by rewrite Hrows.
Qed.

(** C6: [packRows] is one bounded pass over the domain.  For every legend
    state and every available width, the index loop of [forEach] over the
    domain, given fuel for one round per entry and the final test (or more),
    returns; it has then called the loop body once at each index of the
    domain, in increasing order, and its result is the left fold of the loop
    body over the domain, whose rows [packRows] stores. *)
Theorem packRows_single_pass (st : t) (availableWidth : JS.num) (spare : nat) :
  let entries := scale_domain st in
  let body := packEntry availableWidth (entryLengths st) in
  let p := fold_left body entries (packStart availableWidth) in
  forEach_loop (Datatypes.S (length entries) + spare) 0 entries body
               (packStart availableWidth) [] =
    Some (p, seq 0 (length entries)) ∧
  rows (packRows st availableWidth) = Some (pk_rows p).
Proof.
  cbn zeta. split; [|done].
  rewrite forEach_loop_from by lia.
  by rewrite drop_0, Nat.sub_0_r.
Qed.

(** *** The space left in the current row *)

Lemma spaceAfter_snoc availableWidth lengths row e :
  spaceAfter availableWidth lengths (row ++ [e]) =
  JS.sub (spaceAfter availableWidth lengths row) (get_length lengths e).
Proof. unfold spaceAfter. by rewrite fold_left_app. Qed.

(** [spaceLeft] is the available width less the lengths of the entries of
    the current row, subtracted in their order. *)
Lemma packLoop_spaceLeft availableWidth lengths entries :
  ∃ closed row,
    at_last_row (packLoop availableWidth lengths entries) closed row ∧
    spaceLeft (packLoop availableWidth lengths entries) =
      spaceAfter availableWidth lengths row.
Proof.
  induction entries as [|e entries IH] using rev_ind.
  - exists [], []. split; [apply packStart_at_last_row|done].
  - destruct IH as (closed & row & Hshape & Hspace).
    rewrite packLoop_snoc.
    pose proof (packEntry_at_last_row availableWidth lengths _ _ _ e Hshape) as Hstep.
    cbn zeta in Hstep. rewrite Hspace in Hstep.
    destruct (JS.gt _ _); destruct Hstep as [Hshape' Hspace'].
    + exists (closed ++ [row]), [e]. split; [done|]. by rewrite Hspace'.
    + exists closed, (row ++ [e]). split; [done|].
      by rewrite Hspace', spaceAfter_snoc.
Qed.

(** The greedy rule: the next entry opens a new row exactly when its length
    exceeds the space left in the current row, and joins the current row
    otherwise. *)
Lemma packLoop_greedy availableWidth lengths entries e :
  ∃ closed row,
    pk_rows (packLoop availableWidth lengths entries) = closed ++ [row] ∧
    spaceLeft (packLoop availableWidth lengths entries) =
      spaceAfter availableWidth lengths row ∧
    pk_rows (packLoop availableWidth lengths (entries ++ [e])) =
      if JS.gt (get_length lengths e) (spaceAfter availableWidth lengths row)
      then closed ++ [row; [e]]
      else closed ++ [row ++ [e]].
Proof.
  destruct (packLoop_spaceLeft availableWidth lengths entries)
    as (closed & row & Hshape & Hspace).
  exists closed, row. split; [apply Hshape|]. split; [done|].
  rewrite packLoop_snoc.
  pose proof (packEntry_at_last_row availableWidth lengths _ _ _ e Hshape) as Hstep.
  cbn zeta in Hstep. rewrite Hspace in Hstep.
  destruct (JS.gt _ _); destruct Hstep as [[-> _] _].
  - by rewrite <- app_assoc.
  - done.
Qed.

Lemma snoc_split {A : Type} (row before after : list A) (e x : A) :
  row ++ [e] = before ++ x :: after →
  (after = [] ∧ before = row ∧ x = e) ∨
  ∃ after', after = after' ++ [e] ∧ row = before ++ x :: after'.
Proof.
  destruct after as [|y after _] using rev_ind; intros Heq.
  - left. apply app_inj_tail in Heq as [Hrow He]. by subst.
  - right. exists after.
    change (before ++ x :: after ++ [y]) with (before ++ (x :: after) ++ [y]) in Heq.
    rewrite app_assoc in Heq. apply app_inj_tail in Heq as [Hrow He]. by subst.
Qed.

(** If no entry is longer than the available width, every entry is placed
    where its length does not exceed the space left. *)
Lemma packLoop_rows_placed availableWidth lengths entries :
  (∀ e, JS.gt (get_length lengths e) availableWidth = false) →
  Forall (placed_in_space availableWidth lengths)
         (pk_rows (packLoop availableWidth lengths entries)).
Proof.
  intros Hfirst.
  induction entries as [|e entries IH] using rev_ind.
  - cbn. apply Forall_singleton. intros before x after Heq.
    by destruct before.
  - destruct (packLoop_greedy availableWidth lengths entries e)
      as (closed & row & Hrows & _ & Hnext).
    rewrite Hrows in IH. apply Forall_app in IH as [Hclosed Hrow].
    rewrite Forall_singleton in Hrow.
    rewrite Hnext. destruct (JS.gt _ _) eqn:Hgt.
    + apply Forall_app. split; [done|].
      constructor; [exact Hrow|]. apply Forall_singleton.
      intros before x after Heq.
      destruct before as [|y before]; [|by destruct before].
      injection Heq as <- <-. apply Hfirst.
    + apply Forall_app. split; [done|]. apply Forall_singleton.
      intros before x after Heq.
      apply snoc_split in Heq as [(-> & -> & ->)|(after' & -> & Heq)]; [done|].
      by apply (Hrow before x after').
Qed.

(** *** Entry sizes *)

Section Sizes.

Variable measure : string → JS.num * JS.num.
Variable HEIGHT_TEXT : string.

(** The own properties of [entryLengths] after the loop of [sizeEntries]:
    every entry but [__proto__] has got its length. *)
Lemma sized_lookup textHeight availableWidth entries lengths e :
  forEach entries (sizeEntry measure textHeight availableWidth) lengths !! e =
  if decide (e ∈ entries ∧ e ≠ "__proto__"%string)
  then Some (JS.min (JS.add (JS.add textHeight (fst (measure e))) padding)
                    availableWidth)
  else lengths !! e.
Proof.
  induction entries as [|x entries IH] using rev_ind.
  - cbn. rewrite decide_False; [done|]. intros [Hin _]. by apply elem_of_nil in Hin.
  - rewrite forEach_snoc. unfold sizeEntry at 1, set_length.
    destruct (decide (x = "__proto__"%string)) as [->|Hx].
    + rewrite IH. destruct (decide (e ∈ entries ∧ _)) as [[Hin Hne]|Hno].
      * rewrite decide_True; [done|]. split; [|done]. apply elem_of_app. by left.
      * rewrite decide_False; [done|]. intros [Hin Hne]. apply Hno. split; [|done].
        apply elem_of_app in Hin as [Hin|Hin]; [done|].
        by apply list_elem_of_singleton in Hin.
    + rewrite lookup_insert. destruct (decide (x = e)) as [->|Hne].
      * rewrite decide_True; [done|]. split; [|done].
        apply elem_of_app. right. by apply list_elem_of_singleton.
      * rewrite IH. destruct (decide (e ∈ entries ∧ _)) as [[Hin Hp]|Hno].
        -- rewrite decide_True; [done|]. split; [|done]. apply elem_of_app. by left.
        -- rewrite decide_False; [done|]. intros [Hin Hp]. apply Hno. split; [|done].
           apply elem_of_app in Hin as [Hin|Hin]; [done|].
           apply list_elem_of_singleton in Hin. congruence.
Qed.

Lemma sizeEntries_lengths st availableWidth :
  entryLengths (sizeEntries measure HEIGHT_TEXT st availableWidth) =
  forEach (scale_domain st)
    (sizeEntry measure (snd (measure HEIGHT_TEXT)) availableWidth) ∅.
Proof. done. Qed.

Lemma sizeEntries_rows st availableWidth :
  rows (sizeEntries measure HEIGHT_TEXT st availableWidth) =
  Some (pk_rows (packLoop availableWidth
           (entryLengths (sizeEntries measure HEIGHT_TEXT st availableWidth))
           (scale_domain st))).
Proof. done. Qed.

(** What the code reads as the length of an entry after the loop of
    [sizeEntries]: the clamped length, or NaN for an entry that is not in the
    domain and for [__proto__]. *)
Lemma get_length_sized textHeight availableWidth entries e :
  get_length (forEach entries (sizeEntry measure textHeight availableWidth) ∅) e =
  if decide (e ∈ entries ∧ e ≠ "__proto__"%string)
  then JS.min (JS.add (JS.add textHeight (fst (measure e))) padding) availableWidth
  else JS.NaN.
Proof.
  unfold get_length. destruct (decide (e = "__proto__"%string)) as [->|Hne].
  - rewrite decide_False; [done|]. by intros [_ ?].
  - rewrite sized_lookup. by destruct (decide _).
Qed.

(** No length that [sizeEntries] leaves is read as greater than the
    available width. *)
Lemma sized_length_fits textHeight availableWidth entries e :
  JS.gt (get_length (forEach entries (sizeEntry measure textHeight availableWidth) ∅) e)
        availableWidth = false.
Proof.
  rewrite get_length_sized. destruct (decide _).
  - apply NumberFacts.gt_min_r.
  - apply NumberFacts.gt_nan_l.
Qed.

(** C2: the length of an entry against the available width.  After
    [sizeEntries], an entry of the domain other than [__proto__] has as its
    length the smaller of the available width and the sum of text height,
    text width and padding, and if that sum and the available width are
    numbers, the length is at most the available width.  For the entry
    [__proto__] no length is stored; what the code reads as its length is not
    a number, and is not at most the available width. *)
Theorem sizeEntries_clamped (st : t) (availableWidth : JS.num) (e : string) :
  e ∈ scale_domain st →
  let st' := sizeEntries measure HEIGHT_TEXT st availableWidth in
  let natural := JS.add (JS.add (textHeight st') (fst (measure e))) padding in
  (e ≠ "__proto__"%string →
   entryLengths st' !! e = Some (JS.min natural availableWidth) ∧
   get_length (entryLengths st') e = JS.min natural availableWidth ∧
   (JS.isNaN natural = false → JS.isNaN availableWidth = false →
    JS.le (get_length (entryLengths st') e) availableWidth = true)) ∧
  (e = "__proto__"%string →
   entryLengths st' !! e = None ∧
   JS.isNaN (get_length (entryLengths st') e) = true ∧
   JS.le (get_length (entryLengths st') e) availableWidth = false).
Proof.
  intros He st' natural. subst st' natural.
  rewrite sizeEntries_lengths. cbn [textHeight sizeEntries packRows].
  split.
  - intros Hne.
    rewrite sized_lookup, get_length_sized, !decide_True by done.
    split; [done|]. split; [done|]. apply NumberFacts.le_min_r.
  - intros ->.
    rewrite sized_lookup, get_length_sized, !decide_False by (by intros [_ ?]).
    rewrite lookup_empty. done.
Qed.

(** C1: [packRows] fills the rows greedily in one pass from left to right.
    The loop of [packRows] keeps in [spaceLeft] the available width less the
    lengths of the entries of the current (last) row, subtracted one by one;
    it puts the next entry into a new row exactly when the length of the
    entry exceeds [spaceLeft], and at the end of the current row otherwise;
    the rows [packRows] stores are those of this loop; and after
    [sizeEntries] every entry of every row stands where its length did not
    exceed what was left of the available width after the entries before it
    in the row. *)
Theorem packRows_greedy (st : t) (availableWidth : JS.num) :
  (∀ lengths entries e,
     ∃ closed row,
       pk_rows (packLoop availableWidth lengths entries) = closed ++ [row] ∧
       spaceLeft (packLoop availableWidth lengths entries) =
         spaceAfter availableWidth lengths row ∧
       pk_rows (packLoop availableWidth lengths (entries ++ [e])) =
         if JS.gt (get_length lengths e) (spaceAfter availableWidth lengths row)
         then closed ++ [row; [e]]
         else closed ++ [row ++ [e]]) ∧
  rows (packRows st availableWidth) =
    Some (pk_rows (packLoop availableWidth (entryLengths st) (scale_domain st))) ∧
  (let st' := sizeEntries measure HEIGHT_TEXT st availableWidth in
   ∃ rs, rows st' = Some rs ∧
         Forall (placed_in_space availableWidth (entryLengths st')) rs).
Proof.
  split; [|split; [done|]].
  - intros lengths entries e. apply packLoop_greedy.
  - cbn zeta. eexists. split; [apply sizeEntries_rows|].
    apply packLoop_rows_placed. intros e.
    rewrite sizeEntries_lengths. apply sized_length_fits.
Qed.

End Sizes.

Lemma sizeEntries_clamped_witness :
  let measure := λ _ : string, (JS.of_Z 30, JS.of_Z 20) in
  let st := create ["__proto__"; "bb"]%string in
  let st' := sizeEntries measure "bqpdl"%string st (JS.of_Z 40) in
  ("bb"%string ∈ scale_domain st) ∧
  entryLengths st' !! "bb"%string = Some (JS.of_Z 40) ∧
  JS.le (get_length (entryLengths st') "bb"%string) (JS.of_Z 40) = true ∧
  ("__proto__"%string ∈ scale_domain st) ∧
  entryLengths st' !! "__proto__"%string = None ∧
  JS.le (get_length (entryLengths st') "__proto__"%string) (JS.of_Z 40) = false.
Proof.
  cbn zeta.
  assert (Hbb : "bb"%string ∈ ["__proto__"; "bb"]%string)
    by apply list_elem_of_further, list_elem_of_here.
  assert (Hproto : "__proto__"%string ∈ ["__proto__"; "bb"]%string)
    by apply list_elem_of_here.
  destruct (sizeEntries_clamped (λ _, (JS.of_Z 30, JS.of_Z 20)) "bqpdl"%string
              (create ["__proto__"; "bb"]%string) (JS.of_Z 40) "bb"%string Hbb)
    as [Hother _].
  destruct (sizeEntries_clamped (λ _, (JS.of_Z 30, JS.of_Z 20)) "bqpdl"%string
              (create ["__proto__"; "bb"]%string) (JS.of_Z 40) "__proto__"%string Hproto)
    as [_ Hdefect].
  destruct (Hother ltac:(discriminate)) as (Hstored & _ & Hle).
  destruct (Hdefect eq_refl) as (Hnone & _ & Hnot).
  split; [exact Hbb|]. split; [exact Hstored|].
  split; [apply Hle; reflexivity|].
  split; [exact Hproto|]. split; [exact Hnone|exact Hnot].
Defined.

(** C1, what does not hold in doubles.  With a text height of 12, text
    widths of 22.9, 29.1 and 40 and an available width of 143 the lengths are
    39.9, 46.1 and 57; the first two leave 56.99999999999999 of the width,
    so that the third entry opens a second row, although the lengths of the
    first row and the third length sum to exactly 143, which does not exceed
    the available width.  With text widths of 3.1, 39.7 and 7.2 and an
    available width of 101 the three entries share one row, and their lengths
    sum to 101.00000000000001, which exceeds the available width. *)
Lemma packRows_rounding :
  (let measure := λ s : string,
     (if decide (s = "a"%string) then JS.decimal 229 10
      else if decide (s = "b"%string) then JS.decimal 291 10
      else JS.of_Z 40, JS.of_Z 12) in
   let st' := sizeEntries measure "bqpdl"%string
                (create ["a"; "b"; "c"]%string) (JS.of_Z 143) in
   let lengths := entryLengths st' in
   rows st' = Some [["a"; "b"]; ["c"]]%string ∧
   map (get_length lengths) ["a"; "b"; "c"]%string =
     [JS.decimal 399 10; JS.decimal 461 10; JS.of_Z 57] ∧
   JS.add (rowLength lengths ["a"; "b"]%string) (get_length lengths "c"%string) =
     JS.of_Z 143 ∧
   JS.gt (JS.add (rowLength lengths ["a"; "b"]%string) (get_length lengths "c"%string))
         (JS.of_Z 143) = false) ∧
  (let measure := λ s : string,
     (if decide (s = "a"%string) then JS.decimal 31 10
      else if decide (s = "b"%string) then JS.decimal 397 10
      else JS.decimal 72 10, JS.of_Z 12) in
   let st' := sizeEntries measure "bqpdl"%string
                (create ["a"; "b"; "c"]%string) (JS.of_Z 101) in
   let lengths := entryLengths st' in
   rows st' = Some [["a"; "b"; "c"]]%string ∧
   JS.gt (rowLength lengths ["a"; "b"; "c"]%string) (JS.of_Z 101) = true).
Proof. by vm_compute. Qed.

(** ** The space request *)

Section Requests.

Variable measure : string → JS.num * JS.num.
Variable HEIGHT_TEXT : string.

(** What a request returns, in terms of the state it leaves. *)
Lemma requestedSpace_inv st offeredWidth offeredHeight st' req :
  _requestedSpace measure HEIGHT_TEXT st offeredWidth offeredHeight = Some (st', req) →
  ∃ rs,
    rows st' = Some rs ∧
    scale_domain st' = scale_domain
      (if width_changed offeredWidth (previousOfferedWidth st)
       then sizeEntries measure HEIGHT_TEXT st
              (JS.max JS.zero (JS.sub offeredWidth padding))
       else st) ∧
    numRowsToDraw st' =
      JS.min
        (let rowsAvailable :=
           JS.floor (JS.div (JS.sub offeredHeight (JS.mul (JS.of_Z 2) padding))
                            (textHeight st')) in
         if JS.isNaN rowsAvailable then JS.zero else rowsAvailable)
        (JS.of_nat (length rs)) ∧
    width req =
      JS.add padding
        match d3_max (map (rowLength (entryLengths st')) rs) with
        | None => JS.zero
        | Some l => l
        end ∧
    height req =
      JS.add (JS.mul (numRowsToDraw st') (textHeight st'))
             (JS.mul (JS.of_Z 2) padding) ∧
    wantsWidth req = JS.lt offeredWidth (width req) ∧
    wantsHeight req = JS.lt offeredHeight (desiredHeight st' rs).
Proof.
  unfold _requestedSpace.
  destruct (width_changed _ _);
    cbv zeta; cbn [rows textHeight entryLengths scale_domain previousOfferedWidth];
    (destruct (rows _) as [rs|] eqn:Hrows; [|discriminate]);
    intros [= <- <-]; exists rs;
    cbn [rows textHeight entryLengths scale_domain numRowsToDraw
         width height wantsWidth wantsHeight];
    repeat split; done.
Qed.

(** A legend that is laid out answers every request, and stays laid out. *)
Lemma requestedSpace_laid_out st offeredWidth offeredHeight :
  laid_out st →
  ∃ st' req availableWidth,
    _requestedSpace measure HEIGHT_TEXT st offeredWidth offeredHeight = Some (st', req) ∧
    scale_domain st' = scale_domain st ∧
    rows st' = Some (pk_rows (packLoop availableWidth (entryLengths st') (scale_domain st'))).
Proof.
  intros Hlaid. unfold _requestedSpace.
  destruct (width_changed _ _) eqn:Hchanged.
  - cbv zeta. cbn [rows]. rewrite sizeEntries_rows.
    eexists _, _, _. split; [reflexivity|]. split; [done|]. cbn [rows]. done.
  - destruct Hlaid as [Hnone|[availableWidth Hrows]].
    { rewrite Hnone in Hchanged. discriminate. }
    cbv zeta. rewrite Hrows.
    eexists _, _, availableWidth. split; [reflexivity|]. split; [done|]. done.
Qed.

Lemma create_laid_out colorScaleDomain : laid_out (create colorScaleDomain).
Proof. by left. Qed.

Lemma updateDomain_laid_out st newDomain : laid_out (updateDomain st newDomain).
Proof. by left. Qed.

Lemma requestedSpace_keeps_laid_out st offeredWidth offeredHeight st' req :
  laid_out st →
  _requestedSpace measure HEIGHT_TEXT st offeredWidth offeredHeight = Some (st', req) →
  laid_out st'.
Proof.
  intros Hlaid Hreq.
  destruct (requestedSpace_laid_out st offeredWidth offeredHeight Hlaid)
    as (st1 & req1 & availableWidth & Hreq1 & _ & Hrows).
  rewrite Hreq in Hreq1. injection Hreq1 as <- <-.
  right. by exists availableWidth.
Qed.

(** With a finite text height above zero and an offered height that is a
    number, the quotient that gives the rows available is a number: the
    test for NaN does not fire, and the number of rows to draw and the
    height returned are given by the formulas of the code. *)
Lemma requestedSpace_height_formula st offeredWidth offeredHeight st' req :
  _requestedSpace measure HEIGHT_TEXT st offeredWidth offeredHeight = Some (st', req) →
  JS.isFinite (textHeight st') = true →
  JS.gt (textHeight st') JS.zero = true →
  JS.isNaN offeredHeight = false →
  ∃ rs,
    rows st' = Some rs ∧
    numRowsToDraw st' =
      JS.min (JS.floor (JS.div (JS.sub offeredHeight (JS.mul (JS.of_Z 2) padding))
                               (textHeight st')))
             (JS.of_nat (length rs)) ∧
    height req =
      JS.add (JS.mul (numRowsToDraw st') (textHeight st'))
             (JS.mul (JS.of_Z 2) padding) ∧
    (JS.lt (JS.sub offeredHeight (JS.mul (JS.of_Z 2) padding)) JS.zero = false →
     JS.not_negative (numRowsToDraw st')).
Proof.
  intros Hreq Hfinite Hpositive Hoffered.
  destruct (requestedSpace_inv _ _ _ _ _ Hreq) as (rs & Hrs & _ & Hn & _ & Hh & _).
  destruct (NumberFacts.positive_finite _ Hfinite Hpositive) as (m & e & Hth).
  rewrite Hth in *.
  set (x := JS.sub offeredHeight (JS.mul (JS.of_Z 2) padding)) in *.
  assert (Hx : JS.isNaN x = false).
  { subst x. by apply NumberFacts.sub_finite_not_nan. }
  destruct (NumberFacts.not_nan_signed x Hx) as [s Hs].
  pose proof (NumberFacts.floor_signed s _
                (NumberFacts.div_positive_signed s x m e Hs)) as Hfloor.
  cbv zeta in Hn. rewrite (NumberFacts.signed_not_nan s _ Hfloor) in Hn.
  exists rs. split; [done|]. split; [done|]. split; [done|].
  intros Hsign. rewrite Hn. apply NumberFacts.min_not_negative.
  - apply NumberFacts.floor_not_negative, NumberFacts.div_positive_not_negative.
    by apply NumberFacts.lt_zero_not_negative.
  - apply NumberFacts.of_nat_not_negative.
Qed.

(** C5: an empty domain is laid out without failure.  On a legend whose
    colour scale has an empty domain, [packRows] and [sizeEntries] store the
    single empty row; and if the legend is laid out (as it is after the
    constructor, after a change of the domain and after every request),
    [_requestedSpace] returns a request, never the TypeError, leaves the
    single empty row stored, returns the padding, 5, as width, and compares
    the offered height with a desired height of one text height (a double)
    plus twice the padding. *)
Theorem empty_domain_layout (st : t) (offeredWidth offeredHeight : JS.num) :
  scale_domain st = [] →
  (∀ availableWidth,
     rows (packRows st availableWidth) = Some [[]] ∧
     rows (sizeEntries measure HEIGHT_TEXT st availableWidth) = Some [[]]) ∧
  (laid_out st →
   ∃ st' req,
     _requestedSpace measure HEIGHT_TEXT st offeredWidth offeredHeight = Some (st', req) ∧
     rows st' = Some [[]] ∧
     width req = padding ∧ padding = JS.of_Z 5 ∧
     (valid_binary JS.prec JS.emax (textHeight st') = true →
      desiredHeight st' [[]] =
        JS.add (textHeight st') (JS.mul (JS.of_Z 2) padding)) ∧
     wantsHeight req = JS.lt offeredHeight (desiredHeight st' [[]])).
Proof.
  intros Hempty. split.
  - intros availableWidth. unfold sizeEntries, packRows.
    cbn [rows scale_domain]. by rewrite Hempty.
  - intros Hlaid.
    destruct (requestedSpace_laid_out st offeredWidth offeredHeight Hlaid)
      as (st' & req & availableWidth & Hreq & Hdomain & Hrows).
    rewrite Hdomain, Hempty in Hrows. cbn in Hrows.
    destruct (requestedSpace_inv _ _ _ _ _ Hreq)
      as (rs & Hrs & _ & _ & Hwidth & _ & _ & Hwants).
    rewrite Hrows in Hrs. injection Hrs as <-.
    exists st', req. split; [done|]. split; [done|]. split; [done|].
    split; [done|]. split; [|done].
    intros Hvalid. unfold desiredHeight.
    change (JS.of_nat (length [[]])) with (JS.of_Z 1).
    by rewrite NumberFacts.mul_one_l.
Qed.

End Requests.

Lemma empty_domain_layout_witness :
  let measure := λ _ : string, (JS.of_Z 30, JS.of_Z 20) in
  scale_domain (create []) = [] ∧ laid_out (create []) ∧
  ∃ st' req,
    _requestedSpace measure "bqpdl"%string (create []) (JS.of_Z 100) (JS.of_Z 50) =
      Some (st', req) ∧
    rows st' = Some [[]] ∧
    width req = padding ∧ padding = JS.of_Z 5 ∧
    valid_binary JS.prec JS.emax (textHeight st') = true ∧
    desiredHeight st' [[]] = JS.add (textHeight st') (JS.mul (JS.of_Z 2) padding) ∧
    wantsHeight req = JS.lt (JS.of_Z 50) (desiredHeight st' [[]]).
Proof.
  cbn zeta. split; [reflexivity|]. split; [left; reflexivity|].
  destruct (proj2 (empty_domain_layout (λ _, (JS.of_Z 30, JS.of_Z 20)) "bqpdl"%string
                     (create []) (JS.of_Z 100) (JS.of_Z 50) eq_refl)
                  (or_introl eq_refl))
    as (st' & req & Hreq & Hrows & Hwidth & Hpadding & Hdesired & Hwants).
  assert (Hvalid : valid_binary JS.prec JS.emax (textHeight st') = true).
  { vm_compute in Hreq. injection Hreq as <- _. reflexivity. }
  exists st', req. split; [exact Hreq|]. split; [exact Hrows|].
  split; [exact Hwidth|]. split; [exact Hpadding|]. split; [exact Hvalid|].
  split; [exact (Hdesired Hvalid)|exact Hwants].
Defined.

(** *** Worked examples

    A measurer that finds every character 10 wide and every text 20 high
    gives the entries [a], [bb], [ccc] and [dddd] the lengths 35, 45, 55 and
    65 (text height, text width and padding). *)

Example packRows_four_rows :
  let measure := λ s : string, (JS.of_Z (10 * Z.of_nat (String.length s)), JS.of_Z 20) in
  let st := sizeEntries measure "bqpdl"%string
              (create ["a"; "bb"; "ccc"; "dddd"; "a"]%string) (JS.of_Z 95) in
  rows st = Some [["a"; "bb"]; ["ccc"]; ["dddd"]; ["a"]]%string ∧
  map (get_length (entryLengths st)) ["a"; "bb"; "ccc"; "dddd"]%string =
    [JS.of_Z 35; JS.of_Z 45; JS.of_Z 55; JS.of_Z 65].
Proof. by vm_compute. Qed.

(** Entries wider than the available width are clamped to it and get a row
    of their own. *)
Example packRows_clamped :
  let measure := λ s : string, (JS.of_Z (10 * Z.of_nat (String.length s)), JS.of_Z 20) in
  let st := sizeEntries measure "bqpdl"%string
              (create ["a"; "bb"; "ccc"]%string) (JS.of_Z 40) in
  rows st = Some [["a"]; ["bb"]; ["ccc"]]%string ∧
  map (get_length (entryLengths st)) ["a"; "bb"; "ccc"]%string =
    [JS.of_Z 35; JS.of_Z 40; JS.of_Z 40].
Proof. by vm_compute. Qed.

(** An entry without a length turns [spaceLeft] into NaN, after which no
    comparison opens a new row. *)
Example packLoop_missing_length :
  pk_rows (packLoop (JS.of_Z 100) {[ "a"%string := JS.of_Z 60 ]}
                    ["a"; "zz"; "a"; "a"]%string) =
    [["a"; "zz"; "a"; "a"]]%string.
Proof. by vm_compute. Qed.

(** A domain with the entry [__proto__] and an offered width of 60: no
    length is stored for that entry, all entries share one row, and the
    legend asks for a width of 115. *)
Example requestedSpace_proto_entry :
  ∃ st' req,
    _requestedSpace (λ _, (JS.of_Z 30, JS.of_Z 20)) "bqpdl"%string
                    (create ["__proto__"; "a"; "b"]%string)
                    (JS.of_Z 60) (JS.of_Z 50) = Some (st', req) ∧
    rows st' = Some [["__proto__"; "a"; "b"]]%string ∧
    entryLengths st' = {[ "a"%string := JS.of_Z 55; "b"%string := JS.of_Z 55 ]} ∧
    width req = JS.of_Z 115 ∧ wantsWidth req = true.
Proof. eexists _, _. split; [reflexivity|]. by vm_compute. Qed.

(** The first request on a new legend: two rows are wanted, and the offered
    height of 50 has room for both. *)
Example requestedSpace_first_request :
  let measure := λ s : string, (JS.of_Z (10 * Z.of_nat (String.length s)), JS.of_Z 20) in
  ∃ st',
    _requestedSpace measure "bqpdl"%string (create ["a"; "bb"; "ccc"]%string)
                    (JS.of_Z 100) (JS.of_Z 50) =
      Some (st', mkRequest (JS.of_Z 85) (JS.of_Z 50) false false) ∧
    rows st' = Some [["a"; "bb"]; ["ccc"]]%string ∧
    numRowsToDraw st' = JS.of_Z 2.
Proof. cbn zeta. eexists. split; [by vm_compute|]. by vm_compute. Qed.

(** A text height of zero: the division gives minus infinity below twice the
    padding, and the height returned is NaN. *)
Example requestedSpace_zero_text_height :
  ∃ st',
    _requestedSpace (λ _, (JS.zero, JS.zero)) "bqpdl"%string (create [])
                    (JS.of_Z 100) JS.zero =
      Some (st', mkRequest (JS.of_Z 5) JS.NaN false true) ∧
    numRowsToDraw st' = S754_infinity true.
Proof. eexists. split; [by vm_compute|]. by vm_compute. Qed.

(** C7: the height granted against the height offered.  If
    [_requestedSpace] returns a request, the text height is finite and above
    zero and the offered height is a number, then the number of rows to draw
    is the smaller of the row count and the floor of the offered height less
    twice the padding, divided by the text height; the returned height is
    that number times the text height plus twice the padding, each operation
    rounded as doubles are; and if the offered height less twice the padding
    is not negative, the number of rows to draw is not negative.  The
    quotient is rounded before its floor is taken, so that the returned
    height can exceed the offered height, whether the offered height is at
    least twice the padding (254 offered, text height 48.800000000000004,
    five rows) or below it, where the number of rows to draw can be negative
    (2 offered, text height 1.5999999999999999). *)
Theorem requestedSpace_height :
  (∀ (measure : string → JS.num * JS.num) (HEIGHT_TEXT : string) (st : t)
     (offeredWidth offeredHeight : JS.num) (st' : t) (req : ISpaceRequest),
     _requestedSpace measure HEIGHT_TEXT st offeredWidth offeredHeight = Some (st', req) →
     JS.isFinite (textHeight st') = true →
     JS.gt (textHeight st') JS.zero = true →
     JS.isNaN offeredHeight = false →
     ∃ rs,
       rows st' = Some rs ∧
       numRowsToDraw st' =
         JS.min (JS.floor (JS.div (JS.sub offeredHeight (JS.mul (JS.of_Z 2) padding))
                                  (textHeight st')))
                (JS.of_nat (length rs)) ∧
       height req =
         JS.add (JS.mul (numRowsToDraw st') (textHeight st'))
                (JS.mul (JS.of_Z 2) padding) ∧
       (JS.lt (JS.sub offeredHeight (JS.mul (JS.of_Z 2) padding)) JS.zero = false →
        JS.not_negative (numRowsToDraw st'))) ∧
  (∃ (measure : string → JS.num * JS.num) (HEIGHT_TEXT : string) (st : t)
     (offeredWidth offeredHeight : JS.num) (st' : t) (req : ISpaceRequest),
     _requestedSpace measure HEIGHT_TEXT st offeredWidth offeredHeight = Some (st', req) ∧
     JS.isFinite (textHeight st') = true ∧
     JS.gt (textHeight st') JS.zero = true ∧
     JS.ge offeredHeight (JS.mul (JS.of_Z 2) padding) = true ∧
     JS.gt (height req) offeredHeight = true) ∧
  (∃ (measure : string → JS.num * JS.num) (HEIGHT_TEXT : string) (st : t)
     (offeredWidth offeredHeight : JS.num) (st' : t) (req : ISpaceRequest),
     _requestedSpace measure HEIGHT_TEXT st offeredWidth offeredHeight = Some (st', req) ∧
     JS.isFinite (textHeight st') = true ∧
     JS.gt (textHeight st') JS.zero = true ∧
     JS.lt offeredHeight (JS.mul (JS.of_Z 2) padding) = true ∧
     JS.lt (numRowsToDraw st') JS.zero = true ∧
     JS.gt (height req) offeredHeight = true).
Proof.
  split; [|split].
  - intros measure HEIGHT_TEXT st ow oh st' req.
    apply requestedSpace_height_formula.
  - exists (λ _, (JS.of_Z 30, S754_finite false 0x18666666666667 (-47))),
      "bqpdl"%string, (create ["a"; "b"; "c"; "d"; "e"]%string),
      (JS.of_Z 60), (JS.of_Z 254).
    eexists _, _. split; [by vm_compute|]. by vm_compute.
  - exists (λ _, (JS.of_Z 30, S754_finite false 0x19999999999999 (-52))),
      "bqpdl"%string, (create ["a"]%string), (JS.of_Z 60), (JS.of_Z 2).
    eexists _, _. split; [by vm_compute|]. by vm_compute.
Qed.

Lemma requestedSpace_height_witness :
  let measure := λ _ : string, (JS.of_Z 30, JS.of_Z 20) in
  let st := create ["a"; "bb"; "c"]%string in
  ∃ st' req,
    _requestedSpace measure "bqpdl"%string st (JS.of_Z 100) (JS.of_Z 50) =
      Some (st', req) ∧
    JS.isFinite (textHeight st') = true ∧
    JS.gt (textHeight st') JS.zero = true ∧
    JS.isNaN (JS.of_Z 50) = false ∧
    JS.lt (JS.sub (JS.of_Z 50) (JS.mul (JS.of_Z 2) padding)) JS.zero = false ∧
    numRowsToDraw st' = JS.of_Z 2 ∧
    height req = JS.of_Z 50 ∧
    JS.not_negative (numRowsToDraw st').
Proof.
  cbn zeta. eexists _, _. split; [by vm_compute|].
  split; [by vm_compute|]. split; [by vm_compute|]. split; [by vm_compute|].
  split; [by vm_compute|].
  edestruct (proj1 requestedSpace_height (λ _, (JS.of_Z 30, JS.of_Z 20)) "bqpdl"%string
               (create ["a"; "bb"; "c"]%string) (JS.of_Z 100) (JS.of_Z 50))
    as (rs & Hrs & Hn & Hh & Hsign);
    [by vm_compute|by vm_compute|by vm_compute|by vm_compute|].
  split; [by vm_compute|]. split; [by vm_compute|].
  apply Hsign. by vm_compute.
Defined.

(** C7, what does not hold in doubles: that the returned height stays within
    an offered height of at least twice the padding.  With five rows, a text
    height of 48.800000000000004 and an offered height of 254 the quotient
    244 / 48.800000000000004 rounds to 5, all five rows are to be drawn, and
    the height returned is 254.00000000000003. *)
Lemma requestedSpace_height_exceeds :
  let textHeight48_8 := S754_finite false 0x18666666666667 (-47) in
  ∃ st' req,
    _requestedSpace (λ _, (JS.of_Z 30, textHeight48_8)) "bqpdl"%string
                    (create ["a"; "b"; "c"; "d"; "e"]%string)
                    (JS.of_Z 60) (JS.of_Z 254) = Some (st', req) ∧
    rows st' = Some [["a"]; ["b"]; ["c"]; ["d"]; ["e"]]%string ∧
    textHeight st' = textHeight48_8 ∧
    JS.gt (textHeight st') JS.zero = true ∧
    JS.ge (JS.of_Z 254) (JS.mul (JS.of_Z 2) padding) = true ∧
    JS.div (JS.sub (JS.of_Z 254) (JS.mul (JS.of_Z 2) padding)) (textHeight st') =
      JS.of_Z 5 ∧
    numRowsToDraw st' = JS.of_Z 5 ∧
    height req = S754_finite false 0x1fc00000000001 (-45) ∧
    JS.gt (height req) (JS.of_Z 254) = true.
Proof. cbn zeta. eexists _, _. split; [by vm_compute|]. by vm_compute. Qed.

End LegendFacts.

(** ** DataSource *)

Module DataSourceFacts.

Import DataSource.

Section Facts.

Context {elt meta : Type}.
Implicit Types (ds : t elt meta) (d : list elt) (m : meta).

(** A call with a value stores it and broadcasts; a call without one, or
    with [null], changes nothing. *)
Lemma data_broadcasts (arg : js (list elt)) ds :
  length (broadcasts (snd (data arg ds))) =
  (length (broadcasts ds) + (if eq_null arg then 0 else 1))%nat.
Proof.
  unfold data. destruct (eq_null arg); cbn.
  - lia.
  - by rewrite length_app.
Qed.

Lemma metadata_broadcasts (arg : js meta) ds :
  length (broadcasts (snd (metadata arg ds))) =
  (length (broadcasts ds) + (if eq_null arg then 0 else 1))%nat.
Proof.
  unfold metadata. destruct (eq_null arg); cbn.
  - lia.
  - by rewrite length_app.
Qed.

(** C3: the DataSource notifies its listeners exactly on mutation.  A call of
    [data] with a value [d] stores [d] as the data, leaves the metadata,
    calls [_broadcast] once (after the store, so that the listeners find [d])
    and returns the DataSource; [metadata] with a value does the same for the
    metadata; and [data()] and [metadata()] return the stored value, change
    no field and do not broadcast. *)
Theorem data_metadata_notify ds d m :
  data (value d) ds =
    (this, mk (value d) (_metadata ds)
              (broadcasts ds ++ [(value d, _metadata ds)])) ∧
  metadata (value m) ds =
    (this, mk (_data ds) (value m)
              (broadcasts ds ++ [(_data ds, value m)])) ∧
  length (broadcasts (snd (data (value d) ds))) = Datatypes.S (length (broadcasts ds)) ∧
  length (broadcasts (snd (metadata (value m) ds))) = Datatypes.S (length (broadcasts ds)) ∧
  data undefined ds = (stored (_data ds), ds) ∧
  metadata undefined ds = (stored (_metadata ds), ds).
Proof.
  repeat split.
  - rewrite data_broadcasts. cbn. lia.
  - rewrite metadata_broadcasts. cbn. lia.
Qed.

(** One call never turns stored data or metadata into [null]: if a field is
    [null] after the call, it was so before. *)
Lemma perform_keeps_non_null ds (c : call elt meta) :
  (_data (perform ds c) = null → _data ds = null) ∧
  (_metadata (perform ds c) = null → _metadata ds = null).
Proof.
  destruct c as [arg|arg]; cbn; unfold data, metadata.
  - destruct arg; cbn; (split; [done|done]).
  - destruct arg; cbn; (split; [done|done]).
Qed.

Lemma perform_all_keeps_non_null (cs : list (call elt meta)) :
  ∀ ds,
    (_data (perform_all cs ds) = null → _data ds = null) ∧
    (_metadata (perform_all cs ds) = null → _metadata ds = null).
Proof.
  induction cs as [|c cs IH]; intros ds; [done|].
  cbn. destruct (IH (perform ds c)) as [IHd IHm].
  destruct (perform_keeps_non_null ds c) as [Hd Hm].
  split; auto.
Qed.

(** C9: [null] and [undefined] select the getter.  [data(null)] and
    [data(undefined)] return the stored data and leave the data, the
    metadata and the record of broadcasts as they are, and so do
    [metadata(null)] and [metadata(undefined)] with the stored metadata;
    hence no sequence of calls of the two methods stores [null]: data or
    metadata that are [null] after the calls were [null] before them. *)
Theorem null_is_getter ds :
  data null ds = (stored (_data ds), ds) ∧
  data undefined ds = (stored (_data ds), ds) ∧
  metadata null ds = (stored (_metadata ds), ds) ∧
  metadata undefined ds = (stored (_metadata ds), ds) ∧
  ∀ cs : list (call elt meta),
    (_data (perform_all cs ds) = null → _data ds = null) ∧
    (_metadata (perform_all cs ds) = null → _metadata ds = null).
Proof.
  repeat (split; [done|]).
  intros cs. apply perform_all_keeps_non_null.
Qed.

End Facts.

Lemma null_is_getter_witness :
  let ds := constructor nat bool true null (value false) in
  let cs := [call_data undefined; call_metadata (value true); call_data null] in
  _data (perform_all cs ds) = null ∧ _data ds = null.
Proof.
  cbn zeta. split; [reflexivity|].
  apply (proj1 (proj2 (proj2 (proj2 (proj2
    (null_is_getter (constructor nat bool true null (value false))))))
    [call_data undefined; call_metadata (value true); call_data null])).
  reflexivity.
Defined.

(** The constructor takes its defaults for omitted arguments only: an
    explicit [null] is stored. *)
Example constructor_null_data :
  _data (constructor nat bool true null undefined) = null ∧
  _metadata (constructor nat bool true null undefined) = value true ∧
  _data (constructor nat bool true undefined undefined) = value [].
Proof. done. Qed.

End DataSourceFacts.

(** ** XDragBoxLayer *)

Module XDragBoxLayerFacts.

Import XDragBoxLayer.

Local Open Scope Q_scope.

(** C4: the box of an XDragBoxLayer is constrained to the x axis.  After
    bounds are set, after a resize drag on a resizable layer and after a move
    drag on a movable layer, the top edge of the box is at y = 0 and its
    bottom edge at the height of the component, which the gestures leave as
    it is; setting bounds takes the x-coordinates given; a resize takes the
    x of the edge held to the x of the end point of the drag and keeps the
    other edge; a move shifts the x of both edges by the x-distance
    dragged. *)
Theorem x_constrained (l : t) :
  (∀ newBounds,
     let b := bounds (setBounds l newBounds) in
     height (setBounds l newBounds) = height l ∧
     y (topLeft b) = 0 ∧ y (bottomRight b) = height l ∧
     x (topLeft b) = x (topLeft newBounds) ∧
     x (bottomRight b) = x (bottomRight newBounds)) ∧
  (resizable l = true →
   ∀ ex ey dragTo,
     let b := bounds (resize l ex ey dragTo) in
     height (resize l ex ey dragTo) = height l ∧
     y (topLeft b) = 0 ∧ y (bottomRight b) = height l ∧
     match ex with
     | left_edge =>
         x (topLeft b) = x dragTo ∧ x (bottomRight b) = x (bottomRight (bounds l))
     | right_edge =>
         x (topLeft b) = x (topLeft (bounds l)) ∧ x (bottomRight b) = x dragTo
     end) ∧
  (movable l = true →
   ∀ dragFrom dragTo,
     let b := bounds (move l dragFrom dragTo) in
     height (move l dragFrom dragTo) = height l ∧
     y (topLeft b) = 0 ∧ y (bottomRight b) = height l ∧
     x (topLeft b) = x (topLeft (bounds l)) + (x dragTo - x dragFrom) ∧
     x (bottomRight b) = x (bottomRight (bounds l)) + (x dragTo - x dragFrom)).
Proof.
  split; [|split].
  - intros newBounds. by cbn.
  - intros Hresizable ex ey dragTo. unfold resize. rewrite Hresizable.
    destruct ex, ey as [[]|]; by cbn.
  - intros Hmovable dragFrom dragTo. unfold move. rewrite Hmovable. by cbn.
Qed.

Lemma x_constrained_witness :
  let l := set_resizable (create 400 400) true in
  let b := bounds (resize l right_edge (Some bottom_edge) (mkPoint 300 200)) in
  resizable l = true ∧
  y (topLeft b) = 0 ∧ y (bottomRight b) = 400 ∧ x (bottomRight b) = 300.
Proof.
  cbn zeta. split; [reflexivity|].
  destruct (proj1 (proj2 (x_constrained (set_resizable (create 400 400) true)))
              eq_refl right_edge (Some bottom_edge) (mkPoint 300 200))
    as (_ & Htop & Hbottom & _ & Hright).
  split; [exact Htop|]. split; [exact Hbottom|exact Hright].
Defined.

(** The scenarios of the test file, on a component of 400 by 400. *)

Example test_bounds :
  let dbl := create 400 400 in
  let dbl := setBounds dbl (mkBounds (mkPoint (400 / 4) (400 / 4))
                                     (mkPoint (400 / 2) (400 / 2))) in
  let actualBounds := bounds dbl in
  y (topLeft actualBounds) = 0 ∧
  x (topLeft actualBounds) = 400 / 4 ∧
  y (bottomRight actualBounds) = height dbl ∧
  x (bottomRight actualBounds) = 400 / 2.
Proof. done. Qed.

Example test_resizes_only_in_x :
  let dbl := set_resizable (create 400 400) true in
  let dbl := setBounds dbl (mkBounds (mkPoint (400 / 4) (400 / 4))
                                     (mkPoint (400 / 2) (400 / 2))) in
  let dragTo := mkPoint (400 * 3 / 4) (400 / 2) in
  let dbl := resize dbl right_edge (Some bottom_edge) dragTo in
  let actualBounds := bounds dbl in
  x (bottomRight actualBounds) = x dragTo ∧
  y (topLeft actualBounds) = 0 ∧
  y (bottomRight actualBounds) = height dbl.
Proof. done. Qed.

Example test_moves_only_in_x :
  let dbl := set_movable (create 400 400) true in
  let dbl := setBounds dbl (mkBounds (mkPoint (400 / 4) (400 / 4))
                                     (mkPoint (400 * 3 / 4) (400 * 3 / 4))) in
  let boundsBefore := bounds dbl in
  let dragDistance := 10 in
  let dbl := move dbl (mkPoint (400 / 2) (400 / 2))
                      (mkPoint (400 / 2 + dragDistance) (400 / 2 + dragDistance)) in
  let boundsAfter := bounds dbl in
  x (topLeft boundsAfter) == x (topLeft boundsBefore) + dragDistance ∧
  y (topLeft boundsAfter) = 0 ∧
  x (bottomRight boundsAfter) == x (bottomRight boundsBefore) + dragDistance ∧
  y (bottomRight boundsAfter) = height dbl.
Proof. cbn zeta. repeat split; by vm_compute. Qed.

End XDragBoxLayerFacts.

(** ** More on row packing *)

Module PackingFacts.

Import HorizontalLegend LegendFacts.

Lemma snoc_singleton_inv {A : Type} (closed : list A) (row x : A) :
  [x] = closed ++ [row] → closed = [] ∧ row = x.
Proof.
  destruct closed as [|c [|c' closed]]; intros Heq; by simplify_eq/=.
Qed.

Lemma lookup_snoc_Some {A : Type} (l : list A) (x y : A) (i : nat) :
  (l ++ [x]) !! i = Some y ↔
  l !! i = Some y ∨ (i = length l ∧ y = x).
Proof.
  rewrite lookup_app_Some, list_lookup_singleton_Some.
  split.
  - intros [H|(Hle & H0 & ->)]; [by left|]. right. split; [lia|done].
  - intros [H|[-> ->]]; [by left|]. right. split; [lia|]. split; [lia|done].
Qed.

(** If no entry is longer than the available width, no row is empty once
    there is an entry. *)
Lemma packLoop_rows_nonempty availableWidth lengths entries :
  (∀ e, JS.gt (get_length lengths e) availableWidth = false) →
  entries ≠ [] →
  Forall (λ row, row ≠ []) (pk_rows (packLoop availableWidth lengths entries)).
Proof.
  intros Hfirst.
  induction entries as [|e entries IH] using rev_ind; intros Hne; [done|].
  destruct (packLoop_greedy availableWidth lengths entries e)
    as (closed & row & Hrows & _ & Hnext).
  rewrite Hnext. destruct entries as [|e0 entries'].
  - cbn in Hrows. apply snoc_singleton_inv in Hrows as [-> ->].
    cbn [spaceAfter fold_left]. rewrite Hfirst. cbn. by repeat constructor.
  - specialize (IH ltac:(done)). rewrite Hrows in IH.
    apply Forall_app in IH as [Hclosed Hrow]. rewrite Forall_singleton in Hrow.
    destruct (JS.gt _ _).
    + apply Forall_app. split; [done|]. by repeat constructor.
    + apply Forall_app. split; [done|]. apply Forall_singleton.
      by destruct row.
Qed.

Lemma nonempty_rows_length {A : Type} (rs : list (list A)) :
  Forall (λ row, row ≠ []) rs → (length rs ≤ length (concat rs))%nat.
Proof.
  induction 1 as [|row rs Hrow _ IH]; cbn; [lia|].
  rewrite length_app. destruct row; [done|]. cbn. lia.
Qed.

(** The rows are maximal: the entry that opens a row was longer than the
    space left in the row before. *)
Lemma packLoop_maximal availableWidth lengths entries :
  ∀ i row next,
    pk_rows (packLoop availableWidth lengths entries) !! i = Some row →
    pk_rows (packLoop availableWidth lengths entries) !! Datatypes.S i = Some next →
    ∃ e rest,
      next = e :: rest ∧
      JS.gt (get_length lengths e) (spaceAfter availableWidth lengths row) = true.
Proof.
  induction entries as [|e entries IH] using rev_ind; intros i r1 r2.
  { intros _ H2. apply lookup_lt_Some in H2. cbn in H2. lia. }
  destruct (packLoop_greedy availableWidth lengths entries e)
    as (closed & row & Hrows & _ & Hnext).
  rewrite Hnext. rewrite Hrows in IH.
  destruct (JS.gt _ _) eqn:Hgt.
  - change (closed ++ [row; [e]]) with (closed ++ [row] ++ [[e]]).
    rewrite !app_assoc, 2!(lookup_snoc_Some (closed ++ [row])).
    intros [H1|[-> ->]] [H2|[Hi ->]].
    + by apply (IH i r1 r2).
    + exists e, []. split; [done|].
      rewrite length_app in Hi. cbn in Hi.
      rewrite lookup_snoc_Some in H1. destruct H1 as [H1|[_ ->]]; [|done].
      apply lookup_lt_Some in H1. lia.
    + apply lookup_lt_Some in H2. lia.
    + lia.
  - rewrite !lookup_snoc_Some. intros [H1|[-> ->]] [H2|[Hi ->]].
    + apply (IH i r1 r2); rewrite lookup_snoc_Some; auto.
    + destruct (IH i r1 row) as (e0 & rest & -> & Hlt).
      { rewrite lookup_snoc_Some; auto. }
      { rewrite lookup_snoc_Some; auto. }
      exists e0, (rest ++ [e]). done.
    + apply lookup_lt_Some in H2. lia.
    + lia.
Qed.

Section Sized.

Variable measure : string → JS.num * JS.num.
Variable HEIGHT_TEXT : string.

(** X1: a legend with entries has no empty row.  After [sizeEntries], for
    every available width, if the domain is not empty then every stored row
    holds at least one entry, and there are at most as many rows as
    entries. *)
Theorem sizeEntries_rows_nonempty (st : t) (availableWidth : JS.num) :
  scale_domain st ≠ [] →
  ∃ rs, rows (sizeEntries measure HEIGHT_TEXT st availableWidth) = Some rs ∧
        Forall (λ row, row ≠ []) rs ∧
        (length rs ≤ length (scale_domain st))%nat.
Proof.
  intros Hne. eexists. split; [apply sizeEntries_rows|].
  assert (Hrows : Forall (λ row : list string, row ≠ [])
            (pk_rows (packLoop availableWidth
               (entryLengths (sizeEntries measure HEIGHT_TEXT st availableWidth))
               (scale_domain st)))).
  { apply packLoop_rows_nonempty; [|done].
    intros e. rewrite sizeEntries_lengths. apply sized_length_fits. }
  split; [done|].
  destruct (packLoop_at_last_row availableWidth
              (entryLengths (sizeEntries measure HEIGHT_TEXT st availableWidth))
              (scale_domain st)) as (closed & row & [Heq _] & Hconcat).
  rewrite <- Hconcat at 2. rewrite <- Heq. by apply nonempty_rows_length.
Qed.

(** X4: [sizeEntries] keeps lengths for the entries of the domain and for
    nothing else.  Whatever lengths the legend held before, afterwards an
    entry has a length stored exactly when it is in the domain of the colour
    scale and is not [__proto__]. *)
Theorem sizeEntries_lengths_domain (st : t) (availableWidth : JS.num) (e : string) :
  is_Some (entryLengths (sizeEntries measure HEIGHT_TEXT st availableWidth) !! e) ↔
  e ∈ scale_domain st ∧ e ≠ "__proto__"%string.
Proof.
  rewrite sizeEntries_lengths, sized_lookup. destruct (decide _) as [Hin|Hout].
  - split; [done|]. by eexists.
  - rewrite lookup_empty. split; [|done]. by intros [? ?].
Qed.

End Sized.

(** X2: the rows are filled as far as they go.  For any two rows that
    [packRows] stores one after the other, the second row starts with an
    entry whose length exceeded the space left in the first row, that is the
    available width less the lengths of the entries of the first row,
    subtracted one by one. *)
Theorem packRows_rows_maximal (st : t) (availableWidth : JS.num) :
  ∃ rs, rows (packRows st availableWidth) = Some rs ∧
    ∀ i row next,
      rs !! i = Some row → rs !! Datatypes.S i = Some next →
      ∃ e rest,
        next = e :: rest ∧
        JS.gt (get_length (entryLengths st) e)
              (spaceAfter availableWidth (entryLengths st) row) = true.
Proof.
  eexists. split; [done|]. apply packLoop_maximal.
Qed.

Lemma sizeEntries_rows_nonempty_witness :
  let st := create ["a"; "bb"; "c"]%string in
  scale_domain st ≠ [] ∧
  ∃ rs, rows (sizeEntries (λ _, (JS.of_Z 30, JS.of_Z 20)) "bqpdl"%string st
                          (JS.of_Z 70)) = Some rs ∧
        Forall (λ row, row ≠ []) rs ∧ (length rs ≤ 3)%nat.
Proof.
  cbn zeta. split; [discriminate|].
  apply (sizeEntries_rows_nonempty (λ _, (JS.of_Z 30, JS.of_Z 20)) "bqpdl"%string
           (create ["a"; "bb"; "c"]%string) (JS.of_Z 70)).
  discriminate.
Defined.

Lemma packRows_rows_maximal_witness :
  let lengths : gmap string JS.num :=
    {[ "a"%string := JS.of_Z 60; "b"%string := JS.of_Z 50 ]} in
  let st := mk ["a"; "b"; "a"]%string (JS.of_Z 20) lengths None None JS.zero in
  rows (packRows st (JS.of_Z 100)) = Some [["a"]; ["b"]; ["a"]]%string ∧
  ∃ e rest,
    ["b"]%string = e :: rest ∧
    JS.gt (get_length lengths e) (spaceAfter (JS.of_Z 100) lengths ["a"]%string) = true.
Proof.
  cbn zeta.
  destruct (packRows_rows_maximal
              (mk ["a"; "b"; "a"]%string (JS.of_Z 20)
                  {[ "a"%string := JS.of_Z 60; "b"%string := JS.of_Z 50 ]}
                  None None JS.zero) (JS.of_Z 100)) as (rs & Hrs & Hmax).
  assert (Hrows : rs = [["a"]; ["b"]; ["a"]]%string).
  { assert (Some rs = Some [["a"]; ["b"]; ["a"]]%string) as [= ->]; [|done].
    rewrite <- Hrs. by vm_compute. }
  subst rs. split; [exact Hrs|].
  apply (Hmax 0%nat ["a"]%string ["b"]%string); reflexivity.
Defined.

End PackingFacts.

(** ** More on the space request *)

Module RequestFacts.

Import HorizontalLegend LegendFacts PackingFacts.

Section Requests.

Variable measure : string → JS.num * JS.num.
Variable HEIGHT_TEXT : string.

(** A request with a new width sizes the entries for that width. *)
Lemma requestedSpace_fresh st offeredWidth offeredHeight :
  width_changed offeredWidth (previousOfferedWidth st) = true →
  let s := sizeEntries measure HEIGHT_TEXT st
             (JS.max JS.zero (JS.sub offeredWidth padding)) in
  ∃ st' req,
    _requestedSpace measure HEIGHT_TEXT st offeredWidth offeredHeight = Some (st', req) ∧
    scale_domain st' = scale_domain st ∧
    textHeight st' = textHeight s ∧
    entryLengths st' = entryLengths s ∧
    rows st' = rows s ∧
    previousOfferedWidth st' = Some offeredWidth.
Proof.
  intros Hchanged s. unfold _requestedSpace. rewrite Hchanged.
  cbv zeta. cbn [rows]. rewrite sizeEntries_rows.
  eexists _, _. split; [reflexivity|]. done.
Qed.

(** A request with the width of the last request keeps what is stored. *)
Lemma requestedSpace_kept st offeredWidth offeredHeight rs :
  width_changed offeredWidth (previousOfferedWidth st) = false →
  rows st = Some rs →
  ∃ st' req,
    _requestedSpace measure HEIGHT_TEXT st offeredWidth offeredHeight = Some (st', req) ∧
    scale_domain st' = scale_domain st ∧
    textHeight st' = textHeight st ∧
    entryLengths st' = entryLengths st ∧
    rows st' = rows st ∧
    previousOfferedWidth st' = previousOfferedWidth st.
Proof.
  intros Hchanged Hrows. unfold _requestedSpace. rewrite Hchanged.
  cbv zeta. rewrite Hrows.
  eexists _, _. split; [reflexivity|]. done.
Qed.

(** After a request with a width that is a number, the legend remembers a
    width from which the offered one does not differ. *)
Lemma requestedSpace_previous st offeredWidth offeredHeight st' req :
  JS.isNaN offeredWidth = false →
  _requestedSpace measure HEIGHT_TEXT st offeredWidth offeredHeight = Some (st', req) →
  width_changed offeredWidth (previousOfferedWidth st') = false.
Proof.
  intros Hnumber Hreq.
  destruct (width_changed offeredWidth (previousOfferedWidth st)) eqn:Hchanged.
  - destruct (requestedSpace_fresh st offeredWidth offeredHeight Hchanged)
      as (st1 & req1 & Hreq1 & _ & _ & _ & _ & Hprev).
    rewrite Hreq in Hreq1. injection Hreq1 as -> ->.
    rewrite Hprev. cbn. by apply NumberFacts.strict_ne_refl.
  - destruct (rows st) as [rs0|] eqn:Hrows.
    + destruct (requestedSpace_kept st offeredWidth offeredHeight rs0 Hchanged Hrows)
        as (st1 & req1 & Hreq1 & _ & _ & _ & _ & Hprev).
      rewrite Hreq in Hreq1. injection Hreq1 as -> ->.
      by rewrite Hprev.
    + unfold _requestedSpace in Hreq. rewrite Hchanged in Hreq.
      cbv zeta in Hreq. rewrite Hrows in Hreq. discriminate.
Qed.

Lemma sized_laid_out st : sized measure HEIGHT_TEXT st → laid_out st.
Proof.
  intros Hsized. destruct (previousOfferedWidth st) as [w|] eqn:Hprev.
  - right. destruct (Hsized w Hprev) as (_ & _ & Hrows). eauto.
  - by left.
Qed.

Lemma requestedSpace_sized st offeredWidth offeredHeight st' req :
  sized measure HEIGHT_TEXT st →
  _requestedSpace measure HEIGHT_TEXT st offeredWidth offeredHeight = Some (st', req) →
  sized measure HEIGHT_TEXT st'.
Proof.
  intros Hsized Hreq.
  destruct (width_changed offeredWidth (previousOfferedWidth st)) eqn:Hchanged.
  - destruct (requestedSpace_fresh st offeredWidth offeredHeight Hchanged)
      as (st1 & req1 & Hreq1 & Hdomain & Hth & Hlengths & Hrows & Hprev).
    rewrite Hreq in Hreq1. injection Hreq1 as <- <-.
    intros w Hw. rewrite Hprev in Hw. injection Hw as <-.
    rewrite Hth, Hlengths, Hrows, Hdomain. done.
  - destruct (previousOfferedWidth st) as [w0|] eqn:Hprev0; [|discriminate].
    rewrite <- Hprev0 in Hchanged.
    destruct (Hsized w0 Hprev0) as (Hth0 & Hlengths0 & Hrows0).
    destruct (requestedSpace_kept st offeredWidth offeredHeight _ Hchanged Hrows0)
      as (st1 & req1 & Hreq1 & Hdomain & Hth & Hlengths & Hrows & Hprev).
    rewrite Hreq in Hreq1. injection Hreq1 as <- <-.
    intros w Hw. rewrite Hprev, Hprev0 in Hw. injection Hw as <-.
    rewrite Hth, Hlengths, Hrows, Hdomain. done.
Qed.

(** X6: a new domain is laid out at the next request.  After the domain of
    the scale has changed, the next request, whatever width and height it
    offers and whatever the legend held before, succeeds and leaves rows
    whose concatenation is the new domain, lengths stored for exactly the
    entries of the new domain other than [__proto__], and the measured text
    height. *)
Theorem updateDomain_then_request (st : t) (newDomain : list string)
    (offeredWidth offeredHeight : JS.num) :
  ∃ st' req rs,
    _requestedSpace measure HEIGHT_TEXT (updateDomain st newDomain)
                    offeredWidth offeredHeight = Some (st', req) ∧
    scale_domain st' = newDomain ∧
    rows st' = Some rs ∧ concat rs = newDomain ∧
    (∀ e, is_Some (entryLengths st' !! e) ↔
          e ∈ newDomain ∧ e ≠ "__proto__"%string) ∧
    textHeight st' = snd (measure HEIGHT_TEXT).
Proof.
  destruct (requestedSpace_fresh (updateDomain st newDomain) offeredWidth offeredHeight
              eq_refl)
    as (st' & req & Hreq & Hdomain & Hth & Hlengths & Hrows & _).
  rewrite sizeEntries_rows in Hrows.
  destruct (packLoop_at_last_row (JS.max JS.zero (JS.sub offeredWidth padding))
              (entryLengths (sizeEntries measure HEIGHT_TEXT
                               (updateDomain st newDomain)
                               (JS.max JS.zero (JS.sub offeredWidth padding))))
              newDomain) as (closed & row & [Heq _] & Hconcat).
  exists st', req, (closed ++ [row]).
  split; [done|]. split; [done|].
  split; [by rewrite Hrows; cbn [scale_domain updateDomain _invalidateLayout]; rewrite Heq|].
  split; [done|]. split; [|done].
  intros e. rewrite Hlengths, sizeEntries_lengths, sized_lookup.
  cbn [scale_domain updateDomain _invalidateLayout].
  destruct (decide _) as [Hin|Hout].
  - split; [done|]. by eexists.
  - rewrite lookup_empty. split; [|done]. by intros [? ?].
Qed.

(** X7: the sizes stored are those of the current domain and the last
    width.  The constructor, a change of the domain and [_invalidateLayout]
    leave the legend sized; and a request on a sized legend succeeds (it
    never meets rows that are [undefined]) and leaves the legend sized. *)
Theorem sized_invariant :
  (∀ colorScaleDomain, sized measure HEIGHT_TEXT (create colorScaleDomain)) ∧
  (∀ st newDomain, sized measure HEIGHT_TEXT (updateDomain st newDomain)) ∧
  (∀ st, sized measure HEIGHT_TEXT (_invalidateLayout st)) ∧
  (∀ st offeredWidth offeredHeight,
     sized measure HEIGHT_TEXT st →
     ∃ st' req,
       _requestedSpace measure HEIGHT_TEXT st offeredWidth offeredHeight =
         Some (st', req) ∧
       sized measure HEIGHT_TEXT st').
Proof.
  split; [intros d w Hw; discriminate|].
  split; [intros st d w Hw; discriminate|].
  split; [intros st w Hw; discriminate|].
  intros st ow oh Hsized.
  destruct (requestedSpace_laid_out measure HEIGHT_TEXT st ow oh (sized_laid_out st Hsized))
    as (st' & req & _ & Hreq & _).
  exists st', req. split; [done|]. by apply (requestedSpace_sized st ow oh st' req).
Qed.

End Requests.

(** X5: the sizes are kept until the offered width changes.  After a
    request, a second request with the same offered width (a number: NaN
    differs from itself), whatever the offered height and even if the text
    would now measure differently, leaves the text height, the entry lengths
    and the rows as they are and returns the same width and the same
    [wantsWidth]. *)
Theorem requestedSpace_same_width_keeps
    (measure : string → JS.num * JS.num) (HEIGHT_TEXT : string)
    (measure2 : string → JS.num * JS.num) (HEIGHT_TEXT2 : string)
    (st : t) (offeredWidth offeredHeight offeredHeight2 : JS.num)
    (st' : t) (req : ISpaceRequest) :
  JS.isNaN offeredWidth = false →
  _requestedSpace measure HEIGHT_TEXT st offeredWidth offeredHeight = Some (st', req) →
  ∃ st'' req',
    _requestedSpace measure2 HEIGHT_TEXT2 st' offeredWidth offeredHeight2 =
      Some (st'', req') ∧
    textHeight st'' = textHeight st' ∧
    entryLengths st'' = entryLengths st' ∧
    rows st'' = rows st' ∧
    width req' = width req ∧
    wantsWidth req' = wantsWidth req.
Proof.
  intros Hnumber Hreq.
  pose proof (requestedSpace_previous measure HEIGHT_TEXT _ _ _ _ _ Hnumber Hreq) as Hkept.
  destruct (requestedSpace_inv _ _ _ _ _ _ _ Hreq)
    as (rs & Hrs & _ & _ & Hwidth & _ & Hwants & _).
  destruct (requestedSpace_kept measure2 HEIGHT_TEXT2 st' offeredWidth offeredHeight2
              rs Hkept Hrs)
    as (st'' & req' & Hreq' & _ & Hth & Hlengths & Hrows & _).
  exists st'', req'. repeat (split; [done|]).
  destruct (requestedSpace_inv _ _ _ _ _ _ _ Hreq')
    as (rs' & Hrs' & _ & _ & Hwidth' & _ & Hwants' & _).
  assert (rs' = rs) as -> by congruence.
  assert (Heq : width req' = width req) by (rewrite Hwidth', Hwidth, Hlengths; done).
  split; [done|]. by rewrite Hwants, Hwants', Heq.
Qed.

Lemma create_sized measure HEIGHT_TEXT colorScaleDomain :
  sized measure HEIGHT_TEXT (create colorScaleDomain).
Proof. intros w Hw. discriminate. Qed.

Lemma requestedSpace_same_width_keeps_witness :
  let measure := λ _ : string, (JS.of_Z 30, JS.of_Z 20) in
  let measure2 := λ _ : string, (JS.of_Z 300, JS.of_Z 40) in
  JS.isNaN (JS.of_Z 100) = false ∧
  ∃ st' req,
    _requestedSpace measure "bqpdl"%string (create ["a"; "bb"; "c"]%string)
                    (JS.of_Z 100) (JS.of_Z 50) = Some (st', req) ∧
    ∃ st'' req',
      _requestedSpace measure2 "bqpdl"%string st' (JS.of_Z 100) (JS.of_Z 70) =
        Some (st'', req') ∧
      textHeight st'' = textHeight st' ∧
      entryLengths st'' = entryLengths st' ∧
      rows st'' = rows st' ∧
      width req' = width req ∧
      wantsWidth req' = wantsWidth req.
Proof.
  cbn zeta. split; [reflexivity|].
  eexists _, _. split; [by vm_compute|].
  apply (requestedSpace_same_width_keeps (λ _, (JS.of_Z 30, JS.of_Z 20)) "bqpdl"%string
           (λ _, (JS.of_Z 300, JS.of_Z 40)) "bqpdl"%string
           (create ["a"; "bb"; "c"]%string) (JS.of_Z 100) (JS.of_Z 50) (JS.of_Z 70)).
  - reflexivity.
  - by vm_compute.
Defined.

Lemma sized_invariant_witness :
  let measure := λ _ : string, (JS.of_Z 30, JS.of_Z 20) in
  sized measure "bqpdl"%string (create ["a"; "bb"]%string) ∧
  ∃ st' req,
    _requestedSpace measure "bqpdl"%string (create ["a"; "bb"]%string)
                    (JS.of_Z 100) (JS.of_Z 50) = Some (st', req) ∧
    sized measure "bqpdl"%string st'.
Proof.
  cbn zeta. split; [apply create_sized|].
  apply (proj2 (proj2 (proj2 (sized_invariant (λ _, (JS.of_Z 30, JS.of_Z 20))
                                              "bqpdl"%string)))).
  apply create_sized.
Defined.

(** Three entries of length 55 in a width of 55 take three rows, of which an
    offered height of 50 has room for two: more height is wanted. *)
Example requestedSpace_two_of_three_rows :
  ∃ st',
    _requestedSpace (λ _, (JS.of_Z 30, JS.of_Z 20)) "bqpdl"%string
                    (create ["a"; "bb"; "c"]%string) (JS.of_Z 60) (JS.of_Z 50) =
      Some (st', mkRequest (JS.of_Z 60) (JS.of_Z 50) false true) ∧
    rows st' = Some [["a"]; ["bb"]; ["c"]]%string ∧
    numRowsToDraw st' = JS.of_Z 2.
Proof. eexists. split; [by vm_compute|]. by vm_compute. Qed.

End RequestFacts.

(** ** Sequences of calls on a DataSource *)

Module DataSourceCallFacts.

Import DataSource DataSourceCalls DataSourceFacts.

Section Calls.

Context {elt meta : Type}.
Implicit Types (ds : t elt meta) (c : call elt meta) (cs : list (call elt meta)).

Lemma perform_all_snoc cs c ds :
  perform_all (cs ++ [c]) ds = perform (perform_all cs ds) c.
Proof. unfold perform_all. by rewrite fold_left_app. Qed.

Lemma data_written_snoc cs c :
  data_written (cs ++ [c]) =
  data_written cs ++ match c with call_data (value d) => [d] | _ => [] end.
Proof.
  unfold data_written. rewrite omap_app. f_equal.
  by destruct c as [[| |d]|[| |m]].
Qed.

Lemma metadata_written_snoc cs c :
  metadata_written (cs ++ [c]) =
  metadata_written cs ++ match c with call_metadata (value m) => [m] | _ => [] end.
Proof.
  unfold metadata_written. rewrite omap_app. f_equal.
  by destruct c as [[| |d]|[| |m]].
Qed.

(** X14: the last value written is the value read.  After any sequence of
    calls of [data] and [metadata], [data()] returns the value of the last
    call of [data] that passed one, or the data stored before the calls if
    there was none, and changes nothing; likewise [metadata()]. *)
Theorem last_write_is_read cs ds :
  let ds' := perform_all cs ds in
  data undefined ds' =
    (stored (from_option value (_data ds) (last (data_written cs))), ds') ∧
  metadata undefined ds' =
    (stored (from_option value (_metadata ds) (last (metadata_written cs))), ds').
Proof.
  cbn zeta. unfold data, metadata. cbn [eq_null].
  enough (_data (perform_all cs ds) =
            from_option value (_data ds) (last (data_written cs)) ∧
          _metadata (perform_all cs ds) =
            from_option value (_metadata ds) (last (metadata_written cs)))
    as [-> ->] by done.
  induction cs as [|c cs IH] using rev_ind; [done|].
  rewrite perform_all_snoc, data_written_snoc, metadata_written_snoc.
  destruct IH as [IHd IHm].
  destruct c as [[| |d]|[| |m]]; cbn; rewrite ?app_nil_r, ?last_snoc; done.
Qed.

(** X15: one broadcast for every value written.  A sequence of calls makes
    as many calls of [_broadcast] as it has calls that pass a value; calls
    without an argument or with [null] make none. *)
Theorem broadcasts_count cs ds :
  length (broadcasts (perform_all cs ds)) =
  (length (broadcasts ds) + length (data_written cs) + length (metadata_written cs))%nat.
Proof.
  induction cs as [|c cs IH] using rev_ind; [cbn; lia|].
  rewrite perform_all_snoc, data_written_snoc, metadata_written_snoc, !length_app.
  destruct c as [arg|arg]; cbn [perform].
  - rewrite data_broadcasts, IH. destruct arg; cbn; lia.
  - rewrite metadata_broadcasts, IH. destruct arg; cbn; lia.
Qed.

(** X16: no change goes unannounced.  After any sequence of calls, either no
    call passed a value and the DataSource is as it was, or the last
    broadcast was made with exactly the data and metadata that are now
    stored. *)
Theorem last_broadcast_is_current cs ds :
  let ds' := perform_all cs ds in
  (data_written cs = [] ∧ metadata_written cs = [] ∧ ds' = ds) ∨
  last (broadcasts ds') = Some (_data ds', _metadata ds').
Proof.
  cbn zeta. induction cs as [|c cs IH] using rev_ind; [by left|].
  rewrite perform_all_snoc, data_written_snoc, metadata_written_snoc.
  destruct c as [[| |d]|[| |m]]; cbn; rewrite ?app_nil_r;
    try (right; apply last_snoc);
    (destruct IH as [(-> & -> & ->)|IH]; [by left|by right]).
Qed.

End Calls.

Example calls_on_a_data_source :
  let ds := constructor nat bool true undefined undefined in
  let cs := [call_data (value [1; 2]%nat); call_metadata null;
             call_data undefined; call_data (value [3]%nat)] in
  perform_all cs ds =
    mk (value [3]%nat) (value true)
       [(value [1; 2]%nat, value true); (value [3]%nat, value true)].
Proof. done. Qed.

End DataSourceCallFacts.
